(** * ADC Threat: the threat classification engine

    A shallow embedding of the classification code of the web page
    ([src/app.js]: [classifyAbility], [classifyThreatTags], [classifyCC],
    [analyzeThreats]) and of the overlay ([ThreatAnalyzer]: [analyzeChampion],
    [analyzeAbility], [analyzeFromTags], [sortByPriority]), followed by the
    properties the specification states about them.

    Conventions of the embedding.
    - A JavaScript value that may be [null] or [undefined] is an [option];
      an object literal with a fixed shape is a [Record]; a missing field of
      such an object is [None].
    - An object literal used as a lookup table is a [gmap string _]; the keys
      looked up are the table's own properties (inherited properties of
      [Object.prototype] are outside the model).
    - A [Set] of strings is a [gset string]; an array is a [list], [push]
      appends at the end and [forEach] is a left fold.
    - Strings are sequences of code units.  [toLowerCase] is modelled on the
      ASCII range, which covers every keyword the classifier searches for. *)

From Stdlib Require Import ZArith String Ascii.
From stdpp Require Import base option list strings gmap sorting.

Local Open Scope string_scope.
Local Open Scope list_scope.

(** ** JavaScript primitives used by the engine *)

Module Js.

(** [String.prototype.toLowerCase] on one code unit: [A]-[Z] go to
    [a]-[z], everything else is kept. *)
Definition lowerChar (c : ascii) : ascii :=
  let n := N_of_ascii c in
  if ((65 <=? n) && (n <=? 90))%N then ascii_of_N (n + 32) else c.

Fixpoint toLowerCase (s : string) : string :=
  match s with
  | EmptyString => EmptyString
  | String c s' => String (lowerChar c) (toLowerCase s')
  end.

(** [s.includes(sub)]: [sub] occurs in [s] at some position. *)
Fixpoint includes (s sub : string) : bool :=
  String.prefix sub s ||
  match s with
  | EmptyString => false
  | String _ s' => includes s' sub
  end.

(** [x || d] on a string that may be undefined: the empty string is falsy,
    so it is replaced by [d] as well. *)
Definition orString (x : option string) (d : string) : string :=
  match x with
  | Some s => if String.eqb s "" then d else s
  | None => d
  end.

(** [arr.forEach((x, i) => ...)] threading the state the callback mutates;
    [i] is the index of the first element of [l]. *)
Fixpoint forEachFrom {A S : Type} (f : S → A → nat → S) (i : nat)
    (l : list A) (s : S) : S :=
  match l with
  | [] => s
  | x :: l' => forEachFrom f (Datatypes.S i) l' (f s x i)
  end.

Definition forEach {A S : Type} (f : S → A → nat → S) (l : list A) (s : S) : S :=
  forEachFrom f 0 l s.

(** [arr.sort(cmp)]: the sort of the language is stable, and for a
    comparator that is a consistent ordering every stable sort returns the
    same array; it is modelled by insertion from the right, an element
    going before the first one it does not compare greater than. *)
Fixpoint insertBy {A : Type} (cmp : A → A → Z) (x : A) (l : list A) : list A :=
  match l with
  | [] => [x]
  | y :: l' => if (cmp x y <=? 0)%Z then x :: l else y :: insertBy cmp x l'
  end.

Definition sort {A : Type} (cmp : A → A → Z) (l : list A) : list A :=
  foldr (insertBy cmp) [] l.

(** A collation for [localeCompare] on plain ASCII words: the order of the
    code units.  The overlay is stated for any collation; this one serves
    to run it on concrete inputs. *)
Definition codeUnitCompare (a b : string) : Z :=
  match String.compare a b with
  | Lt => (-1)%Z
  | Eq => 0%Z
  | Gt => 1%Z
  end.

(** [s.startsWith(p)] *)
Definition startsWith (s p : string) : bool := String.prefix p s.

(** [s.replace(/[...]/g, f)]: every code unit of the class is replaced by
    what the callback returns for it, the others are kept. *)
Fixpoint replaceEach (inClass : ascii → bool) (f : ascii → string) (s : string) : string :=
  match s with
  | EmptyString => EmptyString
  | String c s' =>
      (if inClass c then f c else String c EmptyString) +:+ replaceEach inClass f s'
  end.

(** The code units below 256 that the class [\s] of a regular expression
    matches: tab to carriage return, space, no-break space. *)
Definition isWhiteSpace (c : ascii) : bool :=
  let n := N_of_ascii c in
  ((9 <=? n) && (n <=? 13) || (n =? 32) || (n =? 160))%N.

(** The class [[a-zA-Z0-9_]]. *)
Definition isWordChar (c : ascii) : bool :=
  let n := N_of_ascii c in
  ((97 <=? n) && (n <=? 122) || (65 <=? n) && (n <=? 90)
   || (48 <=? n) && (n <=? 57) || (n =? 95))%N.

(** [arr.slice(0, end)] for an integer [end]: a negative [end] counts from
    the end of the array. *)
Definition slice0 {A : Type} (l : list A) (end_ : Z) : list A :=
  if (end_ <? 0)%Z then take (Z.to_nat (Z.of_nat (length l) + end_)) l
  else take (Z.to_nat end_) l.

(** [arr.join(sep)] on an array of strings. *)
Fixpoint join (sep : string) (l : list string) : string :=
  match l with
  | [] => EmptyString
  | x :: l' =>
      match l' with
      | [] => x
      | _ :: _ => x +:+ sep +:+ join sep l'
      end
  end.

End Js.

(** ** The curated summary data (champions-summary.json) *)

Module AbilitySummary.
Record t := mk { threat : option (list string) }.
End AbilitySummary.

Module ChampionSummary.
Record t := mk {
  name : option string;
  slug : option string;
  abilities : option (list (option AbilitySummary.t))
}.
End ChampionSummary.

(** [summaryData?.abilities?.[abilityIndex]], [None] when any link of the
    chain is missing or the entry is itself null. *)
Definition abilityEntry (summaryData : option ChampionSummary.t) (abilityIndex : nat)
    : option AbilitySummary.t :=
  sd ← summaryData;
  abilities ← ChampionSummary.abilities sd;
  mjoin (abilities !! abilityIndex).

(** ** The web page (src/app.js) *)

Module Spell.
Record t := mk { name : option string; description : option string }.
End Spell.

Module Champion.
Record t := mk { id : string; name : string; tags : option (list string) }.
End Champion.

Module Detail.
Record t := mk { spells : option (list Spell.t); tags : option (list string) }.
End Detail.

Module Classification.
Record t := mk {
  type : string;
  ccType : string;
  cleansable : bool;
  qssOnly : option bool;
  color : string;
  note : option string
}.
End Classification.

Module App.

Import Classification.

(** The common shapes of the table's object literals. *)
Definition cc (ty label : string) (cl : bool) (col : string) : Classification.t :=
  {| type := ty; ccType := label; cleansable := cl; qssOnly := None;
     color := col; note := None |}.

Definition ccQ (ty label : string) (cl q : bool) (col : string) : Classification.t :=
  {| type := ty; ccType := label; cleansable := cl; qssOnly := Some q;
     color := col; note := None |}.

Definition ccN (ty label : string) (cl : bool) (col n : string) : Classification.t :=
  {| type := ty; ccType := label; cleansable := cl; qssOnly := None;
     color := col; note := Some n |}.

(** [ccClassifications] of [classifyThreatTags]. *)
Definition ccClassifications : gmap string Classification.t :=
  list_to_map [
    ("KNOCKUP", ccQ "hard" "Knockup" false false "hard");
    ("KNOCKBACK", ccQ "hard" "Knockback" false false "hard");
    ("PULL", ccQ "hard" "Pull" false false "hard");
    ("SUPPRESSION", ccQ "suppression" "Suppression" false true "hard");
    ("NEARSIGHT", ccQ "hard" "Nearsight" false false "hard");
    ("STUN", cc "hard" "Stun" true "hard");
    ("ROOT", cc "hard" "Root" true "hard");
    ("SNARE", cc "hard" "Root" true "hard");
    ("SLEEP", cc "hard" "Sleep" true "hard");
    ("CHARM", cc "hard" "Charm" true "hard");
    ("FEAR", cc "hard" "Fear" true "hard");
    ("TAUNT", cc "hard" "Taunt" true "hard");
    ("POLYMORPH", cc "hard" "Polymorph" true "hard");
    ("SLOW", cc "soft" "Slow" true "soft");
    ("SILENCE", cc "soft" "Silence" true "soft");
    ("BLIND", cc "soft" "Blind" true "soft");
    ("DISARM", cc "soft" "Disarm" true "soft");
    ("GROUNDED", cc "soft" "Grounded" true "soft");
    ("CRIPPLE", cc "soft" "Cripple" true "soft");
    ("GAP_CLOSE", cc "high" "Mobility" false "high");
    ("DASH", cc "high" "Dash" false "high");
    ("STEALTH", cc "high" "Stealth" false "high");
    ("DODGE", cc "high" "Dodge" false "high");
    ("PROJECTILE_BLOCK", cc "high" "Projectile Block" false "high");
    ("UNBREAKABLE_WALL", cc "high" "Unbreakable Wall" false "high");
    ("BURST", cc "high" "Burst" false "high");
    ("SHIELD_PEEL", cc "medium" "Shield" false "medium");
    ("SHIELD", cc "medium" "Shield" false "medium");
    ("BREAKABLE_WALL", cc "medium" "Breakable Wall" false "medium");
    ("REVEAL", cc "medium" "Reveal" false "medium");
    ("SUSTAIN", cc "low" "Sustain" false "low");
    ("GHOST", cc "low" "Ghost" false "low")
  ].

Definition priorityOrder : list string := [
  "SUPPRESSION"; "NEARSIGHT";
  "KNOCKUP"; "KNOCKBACK"; "PULL";
  "STUN"; "ROOT"; "SNARE"; "CHARM"; "FEAR"; "TAUNT"; "SLEEP"; "POLYMORPH";
  "SILENCE"; "BLIND"; "DISARM"; "GROUNDED"; "CRIPPLE"; "SLOW";
  "DODGE"; "PROJECTILE_BLOCK"; "UNBREAKABLE_WALL"; "STEALTH"; "GAP_CLOSE"; "DASH";
  "BREAKABLE_WALL"; "REVEAL"; "SHIELD_PEEL"; "SHIELD";
  "SUSTAIN"; "GHOST"
].

(** The loop of [classifyThreatTags] over a list of candidate keys: each
    key the ability carries pushes [ccClassifications[key]]. *)
Fixpoint matchTags (threatTags order : list string) : list (option Classification.t) :=
  match order with
  | [] => []
  | ccType :: rest =>
      if bool_decide (ccType ∈ threatTags)
      then (ccClassifications !! ccType) :: matchTags threatTags rest
      else matchTags threatTags rest
  end.

Definition classifyThreatTags (threatTags : option (list string))
    : list (option Classification.t) :=
  match threatTags with
  | None => []
  | Some tags =>
      if bool_decide (length tags = 0) then [] else matchTags tags priorityOrder
  end.

(** [classifyCC]: the keyword cascade over the lower-cased description and
    name; the first test that succeeds decides. *)
Definition classifyCC (spell : Spell.t) : option Classification.t :=
  let desc := Js.orString (Js.toLowerCase <$> Spell.description spell) "" in
  let name := Js.orString (Js.toLowerCase <$> Spell.name spell) "" in
  if Js.includes desc "suppress" || Js.includes desc "suppression" then
    Some (ccQ "suppression" "Suppression" false true "hard")
  else if Js.includes desc "knock" || Js.includes desc "airborne"
          || Js.includes name "knock" then
    Some (ccN "hard" "Airborne" false "hard"
              "Partial - disabling can be removed, not movement")
  else if Js.includes desc "pull" || Js.includes desc "drag" then
    Some (ccN "hard" "Pull" false "hard"
              "Partial - disabling can be removed, not movement")
  else if Js.includes desc "nearsight" || Js.includes desc "blind zone" then
    Some (cc "hard" "Nearsight" false "hard")
  else if Js.includes desc "stun" then
    Some (cc "soft" "Stun" true "soft")
  else if Js.includes desc "root" || Js.includes desc "immobilize"
          || Js.includes desc "snare" then
    Some (cc "soft" "Root" true "soft")
  else if Js.includes desc "slow" then
    Some (cc "soft" "Slow" true "soft")
  else if Js.includes desc "charm" then
    Some (cc "soft" "Charm" true "soft")
  else if Js.includes desc "fear" || Js.includes desc "flee" then
    Some (cc "soft" "Fear" true "soft")
  else if Js.includes desc "taunt" then
    Some (cc "soft" "Taunt" true "soft")
  else if Js.includes desc "silence" then
    Some (cc "soft" "Silence" true "soft")
  else if Js.includes desc "blind" then
    Some (cc "soft" "Blind" true "soft")
  else if Js.includes desc "disarm" then
    Some (cc "soft" "Disarm" true "soft")
  else if Js.includes desc "cripple"
          || (Js.includes desc "attack speed" && Js.includes desc "reduc") then
    Some (cc "soft" "Cripple" true "soft")
  else if Js.includes desc "sleep" || Js.includes desc "drowsy" then
    Some (cc "soft" "Sleep" true "soft")
  else if Js.includes desc "dash" || Js.includes desc "blink"
          || Js.includes desc "leap"
          || Js.includes name "dash" || Js.includes name "leap" then
    Some (cc "high" "Mobility" false "high")
  else if Js.includes desc "burst"
          || (Js.includes desc "damage" && Js.includes desc "bonus")
          || Js.includes desc "maximum health"
          || Js.includes desc "missing health" then
    Some (cc "high" "Burst" false "high")
  else if Js.includes desc "stealth" || Js.includes desc "invisible"
          || Js.includes desc "camouflage" then
    Some (cc "high" "Stealth" false "high")
  else if Js.includes desc "shield" then
    Some (cc "medium" "Shield" false "medium")
  else if Js.includes desc "poke" then
    Some (cc "medium" "Poke" false "medium")
  else if Js.includes desc "heal" || Js.includes desc "his maximum health"
          || Js.includes desc "her maximum health"
          || Js.includes desc "regenerat" then
    Some (cc "low" "Sustain" false "low")
  else None.

Definition nonCCThreats : list string :=
  ["Shield"; "Sustain"; "Burst"; "Poke"; "Stealth"; "Mobility"].

(** [descClassification && nonCCThreats.includes(descClassification.ccType)] *)
Definition isNonCCThreat (descClassification : option Classification.t) : bool :=
  match descClassification with
  | Some c => bool_decide (ccType c ∈ nonCCThreats)
  | None => false
  end.

(** [classifyAbility(spell, summaryData, abilityIndex, allowFallbackCC)].
    The result is the JavaScript array as it is: in the last branch the
    array holds [descClassification] whatever it is, [null] included. *)
Definition classifyAbility (spell : Spell.t) (summaryData : option ChampionSummary.t)
    (abilityIndex : nat) (allowFallbackCC : bool) : list (option Classification.t) :=
  let '(classifications, hasAbilitySummary) :=
    match abilityEntry summaryData abilityIndex with
    | Some entry =>
        let threatTags := default [] (AbilitySummary.threat entry) in
        (classifyThreatTags (Some threatTags), true)
    | None => ([], false)
    end in
  if bool_decide (length classifications = 0) then
    let descClassification := classifyCC spell in
    if isNonCCThreat descClassification then [descClassification]
    else if allowFallbackCC && negb hasAbilitySummary then [descClassification]
    else classifications
  else classifications.

(** The entries of [analyzeThreats]'s result. *)
Module Threat.
Record t := mk {
  label : string;
  severity : string;
  icon : string;
  cleansable : bool;
  qssOnly : bool
}.
End Threat.

Definition icons : gmap string string :=
  list_to_map [
    ("Knockup", "🌪️");
    ("Knockback", "💨");
    ("Pull", "🪝");
    ("Suppression", "🔒");
    ("Nearsight", "🌫️");
    ("Stun", "⚡");
    ("Root", "🌿");
    ("Sleep", "😴");
    ("Charm", "💕");
    ("Fear", "😱");
    ("Taunt", "😡");
    ("Polymorph", "🐑");
    ("Slow", "🐌");
    ("Silence", "🤐");
    ("Blind", "🙈");
    ("Disarm", "🚫");
    ("Grounded", "⚓");
    ("Cripple", "🦴");
    ("Mobility", "🏃");
    ("Dash", "💨");
    ("Stealth", "👻");
    ("Dodge", "🌀");
    ("Projectile Block", "🧱");
    ("Unbreakable Wall", "🗿");
    ("Shield", "🛡️");
    ("Breakable Wall", "🧱");
    ("Reveal", "👁️");
    ("Sustain", "💚");
    ("Ghost", "👤");
    ("Airborne", "🌪️");
    ("Burst", "💥");
    ("Poke", "🎯")
  ].

Definition getThreatIcon (ccType : string) : string :=
  Js.orString (icons !! ccType) "⚠️".

Definition severityOf (type : string) : string :=
  if String.eqb type "hard" then "high"
  else if String.eqb type "suppression" then "high"
  else if String.eqb type "soft" then "medium"
  else type.

Definition toThreat (classification : Classification.t) : Threat.t :=
  {| Threat.label := ccType classification;
     Threat.severity := severityOf (type classification);
     Threat.icon := getThreatIcon (ccType classification);
     Threat.cleansable := cleansable classification;
     Threat.qssOnly := default false (qssOnly classification) |}.

(** The body of the inner [forEach] of [analyzeThreats]: the state is the
    pair of [threats] and [seenTypes]. *)
Definition addThreat (st : list Threat.t * gset string)
    (classification : option Classification.t) : list Threat.t * gset string :=
  match classification with
  | Some c =>
      if bool_decide (ccType c ∈ st.2) then st
      else (st.1 ++ [toThreat c], st.2 ∪ {[ ccType c ]})
  | None => st
  end.

(** [state.championsSummary[champion.name] || state.championsSummary[champion.id]] *)
Definition summaryFor (championsSummary : gmap string ChampionSummary.t)
    (champion : Champion.t) : option ChampionSummary.t :=
  match championsSummary !! Champion.name champion with
  | Some s => Some s
  | None => championsSummary !! Champion.id champion
  end.

(** [analyzeThreats(detail, champion)]; the global [state.championsSummary]
    it reads is the first argument. *)
Definition analyzeThreats (championsSummary : gmap string ChampionSummary.t)
    (detail : Detail.t) (champion : Champion.t) : list Threat.t :=
  let spells := default [] (Detail.spells detail) in
  let summaryData := summaryFor championsSummary champion in
  let st :=
    Js.forEach
      (λ st spell i,
         foldl addThreat st (classifyAbility spell summaryData i true))
      spells ([], ∅) in
  take 10 st.1.

(** [normalizeForSearch(text)]: lower case, then the apostrophes, white
    space, hyphens and dots removed. *)
Definition isSeparator (c : ascii) : bool :=
  Ascii.eqb c "'" || Js.isWhiteSpace c || Ascii.eqb c "-" || Ascii.eqb c ".".

Definition normalizeForSearch (text : string) : string :=
  Js.replaceEach isSeparator (λ _, EmptyString) (Js.toLowerCase text).




End App.

(** ** The overlay (ThreatAnalyzer) *)

Module ThreatAnalyzer.

(** The entries of [CC_CLASSIFICATIONS]. *)
Module Entry.
Record t := mk {
  type : string;
  label : string;
  cleansable : bool;
  qssOnly : option bool;
  color : string
}.
End Entry.

(** A threat: an entry spread into a fresh object, with the ability it
    comes from where there is one. *)
Module Threat.
Record t := mk {
  type : string;
  label : string;
  cleansable : bool;
  qssOnly : option bool;
  color : string;
  abilityIndex : option nat;
  abilityKey : option string
}.
End Threat.

(** The two formats [findChampionSummary] handles: an object with a
    [champions] array, or an object keyed by champion name and slug. *)
Inductive ChampionsSummary :=
| ChampionsArray (champions : list ChampionSummary.t)
| ChampionsObject (byKey : gmap string ChampionSummary.t).

Definition entry (ty lbl : string) (cl : bool) (col : string) : Entry.t :=
  {| Entry.type := ty; Entry.label := lbl; Entry.cleansable := cl;
     Entry.qssOnly := None; Entry.color := col |}.

Definition CC_CLASSIFICATIONS : gmap string Entry.t :=
  list_to_map [
    ("KNOCKUP", entry "hard" "Knockup" false "hard");
    ("KNOCKBACK", entry "hard" "Knockback" false "hard");
    ("PULL", entry "hard" "Pull" false "hard");
    ("NEARSIGHT", entry "hard" "Nearsight" false "hard");
    ("SUPPRESSION",
      {| Entry.type := "suppression"; Entry.label := "Suppression";
         Entry.cleansable := false; Entry.qssOnly := Some true;
         Entry.color := "hard" |});
    ("STUN", entry "hard" "Stun" true "hard");
    ("ROOT", entry "hard" "Root" true "hard");
    ("SNARE", entry "hard" "Root" true "hard");
    ("SLEEP", entry "hard" "Sleep" true "hard");
    ("CHARM", entry "hard" "Charm" true "hard");
    ("FEAR", entry "hard" "Fear" true "hard");
    ("TAUNT", entry "hard" "Taunt" true "hard");
    ("POLYMORPH", entry "hard" "Polymorph" true "hard");
    ("SLOW", entry "soft" "Slow" true "soft");
    ("SILENCE", entry "soft" "Silence" true "soft");
    ("BLIND", entry "soft" "Blind" true "soft");
    ("DISARM", entry "soft" "Disarm" true "soft");
    ("GROUNDED", entry "soft" "Grounded" true "soft");
    ("CRIPPLE", entry "soft" "Cripple" true "soft");
    ("GAP_CLOSE", entry "high" "Mobility" false "high");
    ("DASH", entry "high" "Dash" false "high");
    ("STEALTH", entry "high" "Stealth" false "high");
    ("DODGE", entry "high" "Dodge" false "high");
    ("PROJECTILE_BLOCK", entry "high" "Block" false "high");
    ("BURST", entry "high" "Burst" false "high");
    ("SHIELD", entry "medium" "Shield" false "medium");
    ("SHIELD_PEEL", entry "medium" "Shield" false "medium");
    ("SUSTAIN", entry "low" "Sustain" false "low");
    ("GHOST", entry "low" "Ghost" false "low")
  ].

(** Declared by the overlay as the order in which threats are displayed;
    no function of the overlay reads it. *)
Definition PRIORITY_ORDER : list string := [
  "SUPPRESSION"; "NEARSIGHT";
  "KNOCKUP"; "KNOCKBACK"; "PULL";
  "STUN"; "ROOT"; "SNARE"; "CHARM"; "FEAR"; "TAUNT"; "SLEEP"; "POLYMORPH";
  "SILENCE"; "BLIND"; "DISARM"; "GROUNDED"; "CRIPPLE"; "SLOW";
  "DODGE"; "PROJECTILE_BLOCK"; "STEALTH"; "GAP_CLOSE"; "DASH"; "BURST";
  "SHIELD_PEEL"; "SHIELD";
  "SUSTAIN"; "GHOST"
].

(** [findChampionSummary(champion, championsSummary)] *)
Definition findChampionSummary (champion : Champion.t)
    (championsSummary : option ChampionsSummary) : option ChampionSummary.t :=
  match championsSummary with
  | None => None
  | Some (ChampionsArray champions) =>
      List.find
        (λ c, bool_decide (ChampionSummary.name c = Some (Champion.name champion))
              || bool_decide (ChampionSummary.slug c = Some (Champion.id champion)))
        champions
  | Some (ChampionsObject byKey) =>
      match byKey !! Champion.name champion with
      | Some s => Some s
      | None => byKey !! Champion.id champion
      end
  end.

(** [{ ...classification, abilityIndex: index, abilityKey: 'QWER'[index] }] *)
Definition spread (classification : Entry.t) (index : nat) : Threat.t :=
  {| Threat.type := Entry.type classification;
     Threat.label := Entry.label classification;
     Threat.cleansable := Entry.cleansable classification;
     Threat.qssOnly := Entry.qssOnly classification;
     Threat.color := Entry.color classification;
     Threat.abilityIndex := Some index;
     Threat.abilityKey := ["Q"; "W"; "E"; "R"] !! index |}.

(** [analyzeAbility(ability, index)] *)
Definition analyzeAbility (ability : option AbilitySummary.t) (index : nat)
    : list Threat.t :=
  match ability ≫= AbilitySummary.threat with
  | None => []
  | Some threat =>
      if bool_decide (length threat = 0) then []
      else
        foldl
          (λ threats tag,
             match CC_CLASSIFICATIONS !! tag with
             | Some classification => threats ++ [spread classification index]
             | None => threats
             end)
          [] threat
  end.

Definition roleThreat (ty lbl col : string) : Threat.t :=
  {| Threat.type := ty; Threat.label := lbl; Threat.cleansable := false;
     Threat.qssOnly := None; Threat.color := col;
     Threat.abilityIndex := None; Threat.abilityKey := None |}.

(** [analyzeFromTags(tags)]: the fallback on the champion's role tags. *)
Definition analyzeFromTags (tags : list string) : list Threat.t :=
  (if bool_decide ("Assassin" ∈ tags) then [roleThreat "high" "Assassin" "high"] else [])
  ++ (if bool_decide ("Fighter" ∈ tags) then [roleThreat "medium" "Fighter" "medium"] else [])
  ++ (if bool_decide ("Tank" ∈ tags) then [roleThreat "medium" "Tank" "medium"] else [])
  ++ (if bool_decide ("Mage" ∈ tags) then [roleThreat "medium" "Mage" "medium"] else []).

Definition typeOrder : gmap string Z :=
  list_to_map [("hard", 0%Z); ("suppression", 1%Z); ("soft", 2%Z);
               ("high", 3%Z); ("medium", 4%Z); ("low", 5%Z)].

(** The body of the two dedup loops of [analyzeChampion]: the state is the
    pair of [threats] and [seenTypes]. *)
Definition addUnseen (st : list Threat.t * gset string) (threat : Threat.t)
    : list Threat.t * gset string :=
  if bool_decide (Threat.label threat ∈ st.2) then st
  else (st.1 ++ [threat], st.2 ∪ {[ Threat.label threat ]}).

Section WithCollation.

(** [a.localeCompare(b)] of the host: negative, zero or positive. *)
Variable localeCompare : string → string → Z.

(** The comparator of [sortByPriority]. *)
Definition compareThreats (a b : Threat.t) : Z :=
  let typeA := default 99%Z (typeOrder !! Threat.type a) in
  let typeB := default 99%Z (typeOrder !! Threat.type b) in
  if bool_decide (typeA ≠ typeB) then (typeA - typeB)%Z
  else localeCompare (Threat.label a) (Threat.label b).

Definition sortByPriority (threats : list Threat.t) : list Threat.t :=
  Js.sort compareThreats threats.

(** The state of [analyzeChampion] after the loop over the summary's
    abilities. *)
Definition summaryThreats (champion : Champion.t)
    (championsSummary : option ChampionsSummary) : list Threat.t * gset string :=
  match findChampionSummary champion championsSummary ≫= ChampionSummary.abilities with
  | Some abilities =>
      Js.forEach
        (λ st ability index, foldl addUnseen st (analyzeAbility ability index))
        abilities ([], ∅)
  | None => ([], ∅)
  end.

(** [analyzeChampion(champion, championsSummary)] *)
Definition analyzeChampion (champion : option Champion.t)
    (championsSummary : option ChampionsSummary) : list Threat.t :=
  match champion with
  | None => []
  | Some champion =>
      let st := summaryThreats champion championsSummary in
      let st :=
        if bool_decide (length st.1 = 0)
        then foldl addUnseen st (analyzeFromTags (default [] (Champion.tags champion)))
        else st in
      sortByPriority st.1
  end.

End WithCollation.


(** The tips of [generateMatchupSummary] and the ADC templates it reads. *)
Module Tip.
Record t := mk { type : string; text : string }.
End Tip.

Module AdcTemplate.
Record t := mk { tips : option (gmap string string) }.
End AdcTemplate.

(** [adcTemplates?.[adcName]?.tips?.[enemyName]], [None] when a link is
    missing or the tip is the empty string. *)
Definition templateTip (adcTemplates : option (gmap string AdcTemplate.t))
    (adcName enemyName : string) : option string :=
  templates ← adcTemplates;
  template ← templates !! adcName;
  tips ← AdcTemplate.tips template;
  tip ← tips !! enemyName;
  if String.eqb tip "" then None else Some tip.

Section Matchup.

Variable localeCompare : string → string → Z.

(** [generateMatchupSummary(adcName, enemyChampion, championsSummary, adcTemplates)] *)
Definition generateMatchupSummary (adcName : string) (enemyChampion : Champion.t)
    (championsSummary : option ChampionsSummary)
    (adcTemplates : option (gmap string AdcTemplate.t)) : list Tip.t :=
  let tips :=
    match templateTip adcTemplates adcName (Champion.name enemyChampion) with
    | Some text => [Tip.mk "matchup" text]
    | None => []
    end in
  let threats := analyzeChampion localeCompare (Some enemyChampion) championsSummary in
  let hardCC :=
    List.filter
      (λ t, String.eqb (Threat.type t) "hard" || String.eqb (Threat.type t) "suppression")
      threats in
  let tips :=
    if bool_decide (0 < length hardCC)%nat then
      let ccTypes := Js.join ", " (Threat.label <$> hardCC) in
      tips ++ [Tip.mk "warning"
                 ("Watch for CC: " +:+ ccTypes
                  +:+ ". Track cooldowns for safe trading windows.")]
    else tips in
  let mobility :=
    List.find
      (λ t, String.eqb (Threat.label t) "Mobility" || String.eqb (Threat.label t) "Dash")
      threats in
  let tips :=
    match mobility with
    | Some _ =>
        tips ++ [Tip.mk "info"
                   "High mobility - respect gap closers and position carefully."]
    | None => tips
    end in
  let stealth := List.find (λ t, String.eqb (Threat.label t) "Stealth") threats in
  match stealth with
  | Some _ =>
      tips ++ [Tip.mk "warning"
                 "Can stealth - buy Control Wards and stay near allies."]
  | None => tips
  end.

End Matchup.

End ThreatAnalyzer.

(** ** The overlay window (OverlayController) *)

Module OverlayController.

(** [getChampionTip(champion)]; the global [ADC_TEMPLATES] ([None] when it
    is not defined) and [this.selectedADC] are the first two arguments. *)
Definition getChampionTip (ADC_TEMPLATES : option (gmap string ThreatAnalyzer.AdcTemplate.t))
    (selectedADC : option Champion.t) (champion : Champion.t) : option string :=
  let templateTip :=
    templates ← ADC_TEMPLATES;
    adc ← selectedADC;
    ThreatAnalyzer.templateTip (Some templates) (Champion.name adc)
      (Champion.name champion) in
  match templateTip with
  | Some tip => Some tip
  | None =>
      let tags := default [] (Champion.tags champion) in
      if bool_decide ("Assassin" ∈ tags) then
        Some "High burst threat. Position safely and track cooldowns."
      else if bool_decide ("Fighter" ∈ tags) then
        Some "Can dive and sustain. Avoid extended trades."
      else if bool_decide ("Tank" ∈ tags) then
        Some "Watch for engage. Position behind your frontline."
      else if bool_decide ("Mage" ∈ tags) then
        Some "Respect ability range. Dodge skill shots."
      else None
  end.

End OverlayController.

(** ** The champion data of the overlay (ChampionDataLoader) *)

Module ChampionDataLoader.

Definition isSeparator (c : ascii) : bool :=
  Ascii.eqb c "'" || Js.isWhiteSpace c || Ascii.eqb c "-" || Ascii.eqb c ".".

(** [normalizeForSearch(text)] *)
Definition normalizeForSearch (text : string) : string :=
  Js.replaceEach isSeparator (λ _, EmptyString) (Js.toLowerCase text).

(** [getChampionByName(name)]; [this.champions] is the first argument, the
    champions in the order [for ... in] visits them. *)
Definition getChampionByName (champions : option (list Champion.t)) (name : string)
    : option Champion.t :=
  match champions with
  | None => None
  | Some champions =>
      let normalized := normalizeForSearch name in
      List.find
        (λ c, String.eqb (normalizeForSearch (Champion.name c)) normalized)
        champions
  end.

(** [getChampionSummary(championName)]; [this.championsSummary?.champions]
    is the first argument. *)
Definition getChampionSummary (champions : option (list ChampionSummary.t))
    (championName : string) : option ChampionSummary.t :=
  match champions with
  | None => None
  | Some champions =>
      List.find
        (λ c, bool_decide (ChampionSummary.name c = Some championName)
              || bool_decide (ChampionSummary.slug c = Some championName))
        champions
  end.

Section Search.

Variable localeCompare : string → string → Z.

(** The comparator of [searchChampions]: the names that start with the
    query first, then the order of the names. *)
Definition compareMatches (normalized : string) (a b : Champion.t) : Z :=
  let aStarts := Js.startsWith (normalizeForSearch (Champion.name a)) normalized in
  let bStarts := Js.startsWith (normalizeForSearch (Champion.name b)) normalized in
  if aStarts && negb bStarts then (-1)%Z
  else if negb aStarts && bStarts then 1%Z
  else localeCompare (Champion.name a) (Champion.name b).

(** [searchChampions(query, limit = 5)]; [this.champions] is the first
    argument, [Object.values] of it in order. *)
Definition searchChampions (champions : option (list Champion.t)) (query : string)
    (limit : option Z) : list Champion.t :=
  match champions with
  | None => []
  | Some champions =>
      if String.eqb query "" then []
      else
        let normalized := normalizeForSearch query in
        Js.slice0
          (Js.sort (compareMatches normalized)
             (List.filter
                (λ c, Js.includes (normalizeForSearch (Champion.name c)) normalized)
                champions))
          (default 5%Z limit)
  end.

End Search.

End ChampionDataLoader.

(** ** The sanitizers of the overlay (SecurityUtils) *)

Module SecurityUtils.

(** The class of [escapeHtml]: ampersand, angle brackets, double and single
    quote, backtick, equals sign and slash. *)
Definition isHtmlSpecial (c : ascii) : bool :=
  Ascii.eqb c "&" || Ascii.eqb c "<" || Ascii.eqb c ">" || Ascii.eqb c "034"
  || Ascii.eqb c "'" || Ascii.eqb c "`" || Ascii.eqb c "=" || Ascii.eqb c "/".

Definition htmlEntities : list (ascii * string) := [
  ("&"%char, "&amp;");
  ("<"%char, "&lt;");
  (">"%char, "&gt;");
  ("034"%char, "&quot;");
  ("'"%char, "&#x27;");
  ("/"%char, "&#x2F;");
  ("`"%char, "&#x60;");
  ("="%char, "&#x3D;")
].

(** [htmlEntities[char]] as the replacement of a match: a missing entry
    would be written "undefined". *)
Definition entityOf (char : ascii) : string :=
  default "undefined"
    (snd <$> List.find (λ entry, Ascii.eqb entry.1 char) htmlEntities).

(** [escapeHtml(str)]; [None] is an argument that is not a string. *)
Definition escapeHtml (str : option string) : string :=
  match str with
  | None => EmptyString
  | Some str => Js.replaceEach isHtmlSpecial entityOf str
  end.

Definition blockedKeys : list string := ["__proto__"; "constructor"; "prototype"].

(** [/^[a-zA-Z0-9_]+$/.test(key)] *)
Definition isPlainKey (key : string) : bool :=
  negb (String.eqb key "") && forallb Js.isWordChar (list_ascii_of_string key).

(** [sanitizeKey(key)]; [None] in is a key that is not a string, [None] out
    is [null]. *)
Definition sanitizeKey (key : option string) : option string :=
  match key with
  | None => None
  | Some key =>
      if bool_decide (Js.toLowerCase key ∈ blockedKeys) then None
      else if negb (isPlainKey key) then
        Some (Js.replaceEach (λ c, negb (Js.isWordChar c)) (λ _, "_") key)
      else Some key
  end.

(** [createRateLimiter(maxRequests, windowMs)]: the closure it returns
    keeps the times of the calls it allowed in [requests], the oldest
    first.  The state is passed explicitly and [Date.now()] is the argument
    [now], in milliseconds. *)
Section RateLimiter.

Variables maxRequests windowMs : Z.

(** [while (requests.length > 0 && requests[0] < windowStart) requests.shift()] *)
Fixpoint removeOld (windowStart : Z) (requests : list Z) : list Z :=
  match requests with
  | [] => []
  | first :: rest =>
      if (first <? windowStart)%Z then removeOld windowStart rest else requests
  end.

(** One call of [isAllowed]: the answer and the new [requests]. *)
Definition isAllowed (now : Z) (requests : list Z) : bool * list Z :=
  let windowStart := (now - windowMs)%Z in
  let requests := removeOld windowStart requests in
  if (maxRequests <=? Z.of_nat (length requests))%Z then (false, requests)
  else (true, requests ++ [now]).

(** The times of the allowed calls among successive calls at [times],
    and the state after them. *)
Fixpoint allowedCalls (times : list Z) (requests : list Z) : list Z * list Z :=
  match times with
  | [] => ([], requests)
  | now :: later =>
      let '(allowed, requests) := isAllowed now requests in
      let '(rest, final) := allowedCalls later requests in
      (if allowed then now :: rest else rest, final)
  end.

(** The guarantee on a history of allowed calls: each of them has fewer
    than [maxRequests] allowed calls before it within its window. *)
Definition withinRate (history : list Z) : Prop :=
  ∀ before now after,
    history = before ++ now :: after →
    (Z.of_nat (length (filter (λ t, (now - windowMs ≤ t)%Z) before)) < maxRequests)%Z.

End RateLimiter.

End SecurityUtils.

(** ** Vocabulary of the properties *)

Module Props.

Import Classification.

(** The cascade of [App.classifyCC] read as data: its tests on the
    lower-cased description and name, in the order of the source, each with
    the object it returns. *)
Definition ccCascade : list ((string → string → bool) * Classification.t) := [
  (λ desc name, Js.includes desc "suppress" || Js.includes desc "suppression",
   App.ccQ "suppression" "Suppression" false true "hard");
  (λ desc name, Js.includes desc "knock" || Js.includes desc "airborne"
                || Js.includes name "knock",
   App.ccN "hard" "Airborne" false "hard"
           "Partial - disabling can be removed, not movement");
  (λ desc name, Js.includes desc "pull" || Js.includes desc "drag",
   App.ccN "hard" "Pull" false "hard"
           "Partial - disabling can be removed, not movement");
  (λ desc name, Js.includes desc "nearsight" || Js.includes desc "blind zone",
   App.cc "hard" "Nearsight" false "hard");
  (λ desc name, Js.includes desc "stun", App.cc "soft" "Stun" true "soft");
  (λ desc name, Js.includes desc "root" || Js.includes desc "immobilize"
                || Js.includes desc "snare",
   App.cc "soft" "Root" true "soft");
  (λ desc name, Js.includes desc "slow", App.cc "soft" "Slow" true "soft");
  (λ desc name, Js.includes desc "charm", App.cc "soft" "Charm" true "soft");
  (λ desc name, Js.includes desc "fear" || Js.includes desc "flee",
   App.cc "soft" "Fear" true "soft");
  (λ desc name, Js.includes desc "taunt", App.cc "soft" "Taunt" true "soft");
  (λ desc name, Js.includes desc "silence", App.cc "soft" "Silence" true "soft");
  (λ desc name, Js.includes desc "blind", App.cc "soft" "Blind" true "soft");
  (λ desc name, Js.includes desc "disarm", App.cc "soft" "Disarm" true "soft");
  (λ desc name, Js.includes desc "cripple"
                || (Js.includes desc "attack speed" && Js.includes desc "reduc"),
   App.cc "soft" "Cripple" true "soft");
  (λ desc name, Js.includes desc "sleep" || Js.includes desc "drowsy",
   App.cc "soft" "Sleep" true "soft");
  (λ desc name, Js.includes desc "dash" || Js.includes desc "blink"
                || Js.includes desc "leap"
                || Js.includes name "dash" || Js.includes name "leap",
   App.cc "high" "Mobility" false "high");
  (λ desc name, Js.includes desc "burst"
                || (Js.includes desc "damage" && Js.includes desc "bonus")
                || Js.includes desc "maximum health"
                || Js.includes desc "missing health",
   App.cc "high" "Burst" false "high");
  (λ desc name, Js.includes desc "stealth" || Js.includes desc "invisible"
                || Js.includes desc "camouflage",
   App.cc "high" "Stealth" false "high");
  (λ desc name, Js.includes desc "shield", App.cc "medium" "Shield" false "medium");
  (λ desc name, Js.includes desc "poke", App.cc "medium" "Poke" false "medium");
  (λ desc name, Js.includes desc "heal" || Js.includes desc "his maximum health"
                || Js.includes desc "her maximum health"
                || Js.includes desc "regenerat",
   App.cc "low" "Sustain" false "low")
].

(** The result of the first rule whose test succeeds. *)
Definition firstMatch (desc name : string)
    (rules : list ((string → string → bool) * Classification.t))
    : option Classification.t :=
  snd <$> List.find (λ rule, rule.1 desc name) rules.

(** The lower-cased texts [App.classifyCC] searches. *)
Definition descOf (spell : Spell.t) : string :=
  Js.orString (Js.toLowerCase <$> Spell.description spell) "".

Definition nameOf (spell : Spell.t) : string :=
  Js.orString (Js.toLowerCase <$> Spell.name spell) "".

(** The classes of the specification's threat order, most threatening
    first: suppression and hard CC that Cleanse does not remove (0), hard CC
    that it removes (1), soft CC (2), the threats that are not CC (3). *)
Definition threatClass (type : string) (cleansable : bool) : nat :=
  if String.eqb type "suppression" then 0
  else if String.eqb type "hard" then (if cleansable then 1 else 0)
  else if String.eqb type "soft" then 2
  else 3.

Definition classOf (c : Classification.t) : nat :=
  threatClass (type c) (cleansable c).

Definition classOfThreat (t : ThreatAnalyzer.Threat.t) : nat :=
  threatClass (ThreatAnalyzer.Threat.type t) (ThreatAnalyzer.Threat.cleansable t).

(** The class of the table entry of a key of the web page's table. *)
Definition classOfKey (k : string) : nat :=
  from_option classOf 3 (App.ccClassifications !! k).

(** The tags [App.classifyAbility] hands to the tag-based classifier. *)
Definition curatedTags (entry : AbilitySummary.t) : option (list string) :=
  Some (default [] (AbilitySummary.threat entry)).

(** The invariant of the loops that deduplicate by label: the labels of the
    array are pairwise distinct and the set of seen labels holds exactly
    them. *)
Definition dedupInv {A : Type} (label : A → string) (st : list A * gset string) : Prop :=
  NoDup (label <$> st.1) ∧ ∀ x, x ∈ st.2 ↔ x ∈ label <$> st.1.

End Props.

(** * Properties of the embedding *)

(** ** The string primitives *)

Section JsFacts.

Lemma append_String (c : ascii) (a b : string) :
  String c a +:+ b = String c (a +:+ b).
Proof. reflexivity. Qed.

Lemma append_empty (b : string) : "" +:+ b = b.
Proof. reflexivity. Qed.

Lemma prefix_spec (sub s : string) :
  String.prefix sub s = true ↔ ∃ b, s = sub +:+ b.
Proof.
  revert s. induction sub as [|c sub IH]; intros s.
  - destruct s; simpl; (split; [intros _; eexists; reflexivity | done]).
  - destruct s as [|d s]; simpl.
    + split; [done | intros [b Hb]; discriminate].
    + setoid_rewrite append_String.
      destruct (Ascii.ascii_dec c d) as [->|Hne].
      * rewrite IH. split; intros [b Hb]; exists b; congruence.
      * split; [done | intros [b Hb]; congruence].
Qed.

(** [includes] is the substring test: [sub] occurs somewhere in [s]. *)
Lemma includes_spec (s sub : string) :
  Js.includes s sub = true ↔ ∃ a b, s = a +:+ sub +:+ b.
Proof.
  induction s as [|c s IH].
  - change (Js.includes "" sub) with (String.prefix sub "" || false).
    rewrite orb_false_r, prefix_spec. split.
    + intros [b Hb]. by exists "", b.
    + intros (a & b & Hab). destruct a; [eauto | discriminate].
  - change (Js.includes (String c s) sub)
      with (String.prefix sub (String c s) || Js.includes s sub).
    rewrite orb_true_iff, prefix_spec, IH. split.
    + intros [[b Hb] | (a & b & Hab)].
      * by exists "", b.
      * exists (String c a), b. rewrite append_String. congruence.
    + intros (a & b & Hab). destruct a as [|d a].
      * left. eauto.
      * right. exists a, b. rewrite append_String in Hab. congruence.
Qed.

End JsFacts.

(** ** The tag-based classifier of the web page *)

Section TagClassifier.

Import Classification App.

(** The loop keeps, in the order of the candidate list, the keys the
    ability carries. *)
Lemma matchTags_filter (threatTags order : list string) :
  matchTags threatTags order
  = (λ k, ccClassifications !! k) <$> filter (.∈ threatTags) order.
Proof.
  induction order as [|k order IH]; [done|].
  cbn [matchTags]. rewrite filter_cons.
  case_bool_decide; case_decide; try done.
  by rewrite fmap_cons, IH.
Qed.

Lemma classifyThreatTags_filter (threatTags : list string) :
  classifyThreatTags (Some threatTags)
  = (λ k, ccClassifications !! k) <$> filter (.∈ threatTags) priorityOrder.
Proof.
  unfold classifyThreatTags. case_bool_decide as Hlen.
  - apply nil_length_inv in Hlen as ->. vm_compute. reflexivity.
  - apply matchTags_filter.
Qed.

(** Only membership in the tag array matters: neither the order of the
    tags nor their repetition. *)
Lemma classifyThreatTags_ext (tags1 tags2 : list string) :
  (∀ k, k ∈ tags1 ↔ k ∈ tags2) →
  classifyThreatTags (Some tags1) = classifyThreatTags (Some tags2).
Proof.
  intros Hiff. rewrite !classifyThreatTags_filter. f_equal.
  apply list_filter_iff. exact Hiff.
Qed.

Lemma classifyThreatTags_Permutation (tags1 tags2 : list string) :
  tags1 ≡ₚ tags2 →
  classifyThreatTags (Some tags1) = classifyThreatTags (Some tags2).
Proof.
  intros Hp. apply classifyThreatTags_ext. intros k. by rewrite Hp.
Qed.

(** Every key of the priority list is a key of the table, so the loop
    never pushes [undefined]. *)
Lemma priorityOrder_in_table :
  Forall (λ k, is_Some (ccClassifications !! k)) priorityOrder.
Proof.
  repeat (apply Forall_cons_2; [vm_compute; eexists; reflexivity|]).
  constructor.
Qed.

Lemma classifyThreatTags_defined (threatTags : option (list string))
    (c : option Classification.t) :
  c ∈ classifyThreatTags threatTags →
  ∃ k d, k ∈ priorityOrder ∧ ccClassifications !! k = Some d ∧ c = Some d.
Proof.
  destruct threatTags as [tags|]; [|by intros ?%elem_of_nil].
  rewrite classifyThreatTags_filter.
  intros (k & -> & Hk)%list_elem_of_fmap.
  apply list_elem_of_filter in Hk as [_ Hk].
  pose proof priorityOrder_in_table as Hall.
  rewrite Forall_forall in Hall. destruct (Hall k Hk) as [d Hd].
  by exists k, d.
Qed.

Lemma classifyThreatTags_KNOCKUP_SLOW :
  classifyThreatTags (Some ["KNOCKUP"; "SLOW"])
  = [Some (ccQ "hard" "Knockup" false false "hard");
     Some (cc "soft" "Slow" true "soft")]
  ∧ classifyThreatTags (Some ["SLOW"; "KNOCKUP"])
    = classifyThreatTags (Some ["KNOCKUP"; "SLOW"]).
Proof. split; vm_compute; reflexivity. Qed.

End TagClassifier.

(** ** The text classifier of the web page *)

(** Evaluate the keyword tests on a literal description. *)
Ltac eval_tests d :=
  repeat match goal with
         | |- context [Js.includes d ?k] =>
             let b := eval vm_compute in (Js.includes d k) in
             change (Js.includes d k) with b
         end.

Section TextClassifier.

Import Classification App Props.

(** The chain of tests of [classifyCC] is the first match of the cascade. *)
Lemma classifyCC_firstMatch (spell : Spell.t) :
  classifyCC spell = firstMatch (descOf spell) (nameOf spell) ccCascade.
Proof.
  unfold classifyCC, firstMatch, ccCascade.
  fold (descOf spell). fold (nameOf spell).
  generalize (descOf spell) (nameOf spell). intros desc name.
  cbn [List.find fst snd].
  repeat match goal with
         | |- (if ?b then _ else _) = _ => destruct b; [reflexivity|]
         end.
  reflexivity.
Qed.

Lemma firstMatch_elem_of desc name rules c :
  firstMatch desc name rules = Some c → c ∈ rules.*2.
Proof.
  unfold firstMatch. destruct (List.find _ rules) as [r|] eqn:Hfind; [|done].
  intros [= <-]. apply find_some in Hfind as [Hin _].
  apply list_elem_of_fmap. exists r. split; [done|]. by apply list_elem_of_In.
Qed.

(** Whatever [classifyCC] returns is one of the objects of the cascade. *)
Lemma classifyCC_elem_of (spell : Spell.t) (c : Classification.t) :
  classifyCC spell = Some c → c ∈ ccCascade.*2.
Proof. rewrite classifyCC_firstMatch. apply firstMatch_elem_of. Qed.

Lemma cascade_labels :
  ccType <$> ccCascade.*2
  = ["Suppression"; "Airborne"; "Pull"; "Nearsight";
     "Stun"; "Root"; "Slow"; "Charm"; "Fear"; "Taunt"; "Silence"; "Blind";
     "Disarm"; "Cripple"; "Sleep";
     "Mobility"; "Burst"; "Stealth"; "Shield"; "Poke"; "Sustain"].
Proof. reflexivity. Qed.

(** A suppression keyword decides, whatever else the texts contain. *)
Lemma classifyCC_suppress (spell : Spell.t) :
  Js.includes (descOf spell) "suppress" = true →
  classifyCC spell = Some (ccQ "suppression" "Suppression" false true "hard").
Proof.
  intros H. unfold classifyCC. fold (descOf spell). by rewrite H.
Qed.

(** [slow] is tested before [charm]. *)
Lemma classifyCC_slow_before_charm (spell : Spell.t) :
  Js.includes (descOf spell) "slow" = true →
  ccType <$> classifyCC spell ≠ Some "Charm".
Proof.
  intros H. unfold classifyCC. fold (descOf spell). fold (nameOf spell).
  rewrite H.
  repeat match goal with
         | |- _ <$> (if ?b then _ else _) ≠ _ => destruct b; [discriminate|]
         end.
  discriminate.
Qed.

Lemma qssOnly_cascade :
  Forall (λ c, bool_decide (qssOnly c = Some true)
               = bool_decide (type c = "suppression")) ccCascade.*2.
Proof. repeat (apply Forall_cons_2; [by vm_compute|]). constructor. Qed.

Lemma qssOnly_table :
  Forall (λ k, from_option
                 (λ c, bool_decide (qssOnly c = Some true)
                       = bool_decide (type c = "suppression")) True
                 (ccClassifications !! k)) priorityOrder.
Proof. repeat (apply Forall_cons_2; [by vm_compute|]). constructor. Qed.

Lemma bool_decide_eq_iff (P Q : Prop) `{!Decision P, !Decision Q} :
  bool_decide P = bool_decide Q → (P ↔ Q).
Proof. intros H. by rewrite <-(bool_decide_spec P), H, bool_decide_spec. Qed.

Lemma toThreat_qssOnly (c : Classification.t) :
  (qssOnly c = Some true ↔ type c = "suppression") →
  Threat.qssOnly (toThreat c) = bool_decide (type c = "suppression").
Proof.
  intros Hiff. cbn [toThreat Threat.qssOnly].
  case_bool_decide as Hty.
  - apply Hiff in Hty. by rewrite Hty.
  - destruct (qssOnly c) as [[]|] eqn:Hq; try done.
    exfalso. apply Hty. by apply Hiff.
Qed.

End TextClassifier.

(** ** The order of the tag-based classifier's output *)

Section TagOrder.

Import Classification App Props.

Lemma StronglySorted_fmap_filter {A B} (R : relation B) (f : A → B)
    (P : A → Prop) `{!∀ x, Decision (P x)} (l : list A) :
  StronglySorted R (f <$> l) → StronglySorted R (f <$> filter P l).
Proof.
  induction l as [|x l IH]; [done|].
  rewrite fmap_cons. intros [Hl Hx]%StronglySorted_inv.
  rewrite filter_cons. case_decide; [|by apply IH].
  rewrite fmap_cons. constructor; [by apply IH|].
  rewrite Forall_fmap in Hx |- *.
  rewrite Forall_forall in Hx |- *.
  intros y [_ Hy]%list_elem_of_filter. by apply Hx.
Qed.

(** The priority list goes through the classes of the specification's
    order without ever coming back to a more threatening one. *)
Lemma priorityOrder_classes : StronglySorted le (classOfKey <$> priorityOrder).
Proof.
  assert (classOfKey <$> priorityOrder
          = [0; 0; 0; 0; 0; 1; 1; 1; 1; 1; 1; 1; 1; 2; 2; 2; 2; 2; 2;
             3; 3; 3; 3; 3; 3; 3; 3; 3; 3; 3; 3]) as -> by (by vm_compute).
  repeat (apply SSorted_cons; [|repeat constructor]).
  constructor.
Qed.

(** The web page's half of the ordering guarantee: the output of
    [classifyThreatTags] lists the classes most threatening first. *)
Lemma classifyThreatTags_most_threatening_first (threatTags : list string) :
  ∃ cs, classifyThreatTags (Some threatTags) = Some <$> cs
        ∧ StronglySorted le (classOf <$> cs).
Proof.
  exists (omap (λ k, ccClassifications !! k) (filter (.∈ threatTags) priorityOrder)).
  rewrite classifyThreatTags_filter.
  pose proof priorityOrder_in_table as Hall.
  pose proof (StronglySorted_fmap_filter le classOfKey (.∈ threatTags) _
                priorityOrder_classes) as Hsorted.
  assert (Forall (λ k, is_Some (ccClassifications !! k))
            (filter (.∈ threatTags) priorityOrder)) as Hsome.
  { rewrite Forall_forall in Hall |- *.
    intros k [_ Hk]%list_elem_of_filter. by apply Hall. }
  revert Hsome Hsorted.
  generalize (filter (.∈ threatTags) priorityOrder). intros l.
  induction l as [|k l IH]; [done|].
  intros [[c Hc] Hl]%Forall_cons. rewrite !fmap_cons.
  intros [Hsl Hk]%StronglySorted_inv.
  destruct (IH Hl Hsl) as [IH1 IH2].
  cbn [omap list_omap]. rewrite Hc. rewrite !fmap_cons. split.
  - by rewrite IH1.
  - constructor; [done|].
    unfold classOfKey in Hk at 1. rewrite Hc in Hk. cbn [from_option] in Hk.
    clear -Hk Hl. induction l as [|k' l IH]; [constructor|].
    apply Forall_cons in Hl as [[c' Hc'] Hl].
    rewrite fmap_cons in Hk. apply Forall_cons in Hk as [Hk' Hk].
    cbn [omap list_omap]. rewrite Hc'. rewrite fmap_cons.
    constructor; [|by apply IH].
    unfold classOfKey in Hk'. by rewrite Hc' in Hk'.
Qed.

End TagOrder.

(** ** The per-ability aggregator of the web page *)

Section Aggregator.

Import Classification App Props.

Lemma classifyAbility_tagged (spell : Spell.t) (summaryData : option ChampionSummary.t)
    (abilityIndex : nat) (allowFallbackCC : bool) (entry : AbilitySummary.t) :
  abilityEntry summaryData abilityIndex = Some entry →
  classifyThreatTags (curatedTags entry) ≠ [] →
  classifyAbility spell summaryData abilityIndex allowFallbackCC
  = classifyThreatTags (curatedTags entry).
Proof.
  intros Hentry Hne. unfold classifyAbility. rewrite Hentry.
  fold (curatedTags entry).
  destruct (classifyThreatTags (curatedTags entry)) as [|c cs]; [done|].
  by rewrite bool_decide_eq_false_2.
Qed.

Lemma classifyAbility_untagged (spell : Spell.t) (summaryData : option ChampionSummary.t)
    (abilityIndex : nat) (allowFallbackCC : bool) (entry : AbilitySummary.t) :
  abilityEntry summaryData abilityIndex = Some entry →
  classifyThreatTags (curatedTags entry) = [] →
  classifyAbility spell summaryData abilityIndex allowFallbackCC
  = if isNonCCThreat (classifyCC spell) then [classifyCC spell] else [].
Proof.
  intros Hentry Hnil. unfold classifyAbility. rewrite Hentry.
  fold (curatedTags entry). rewrite Hnil.
  rewrite bool_decide_eq_true_2 by done.
  destruct (isNonCCThreat _); [done|].
  by rewrite andb_false_r.
Qed.

Lemma classifyAbility_uncurated (spell : Spell.t) (summaryData : option ChampionSummary.t)
    (abilityIndex : nat) (allowFallbackCC : bool) :
  abilityEntry summaryData abilityIndex = None →
  classifyAbility spell summaryData abilityIndex allowFallbackCC
  = if isNonCCThreat (classifyCC spell) || allowFallbackCC
    then [classifyCC spell] else [].
Proof.
  intros Hentry. unfold classifyAbility. rewrite Hentry.
  rewrite bool_decide_eq_true_2 by done.
  destruct (isNonCCThreat _); [done|].
  by rewrite andb_true_r.
Qed.

(** Where nothing is found and the caller does not ask for the text
    fallback, or the ability has a curated entry, the result is empty. *)
Lemma classifyAbility_nothing_found (spell : Spell.t)
    (summaryData : option ChampionSummary.t) (abilityIndex : nat)
    (allowFallbackCC : bool) :
  from_option (λ entry, classifyThreatTags (curatedTags entry) = []) True
    (abilityEntry summaryData abilityIndex) →
  classifyCC spell = None →
  allowFallbackCC = false ∨ is_Some (abilityEntry summaryData abilityIndex) →
  classifyAbility spell summaryData abilityIndex allowFallbackCC = [].
Proof.
  intros Htags Htext Hcase.
  destruct (abilityEntry summaryData abilityIndex) as [entry|] eqn:Hentry.
  - rewrite (classifyAbility_untagged _ _ _ _ entry) by done. by rewrite Htext.
  - rewrite classifyAbility_uncurated by done. rewrite Htext.
    destruct Hcase as [->|[? [=]]]. done.
Qed.

(** Without a curated entry and with the fallback allowed, nothing found
    comes out as an array holding [null]. *)
Lemma classifyAbility_null_element (spell : Spell.t)
    (summaryData : option ChampionSummary.t) (abilityIndex : nat) :
  abilityEntry summaryData abilityIndex = None →
  classifyCC spell = None →
  classifyAbility spell summaryData abilityIndex true = [None].
Proof.
  intros Hentry Htext. rewrite classifyAbility_uncurated by done.
  by rewrite Htext.
Qed.

(** The labels [classifyAbility] accepts from the text whatever the flag are
    those of threats that are not CC. *)
Lemma nonCC_not_CC (spell : Spell.t) (c : Classification.t) :
  classifyCC spell = Some c → ccType c ∈ nonCCThreats →
  type c ∈ ["high"; "medium"; "low"].
Proof.
  intros Hc%classifyCC_elem_of Hlabel.
  assert (Forall (λ c, bool_decide (ccType c ∈ nonCCThreats) = true →
                       bool_decide (type c ∈ ["high"; "medium"; "low"]) = true)
            ccCascade.*2) as Hall.
  { repeat (apply Forall_cons_2; [by vm_compute|]). constructor. }
  rewrite Forall_forall in Hall.
  eapply bool_decide_eq_true_1, Hall; [done|]. by apply bool_decide_eq_true_2.
Qed.

End Aggregator.

(** ** The claims about the web page's classifiers *)

Section WebClaims.

Import Classification App Props.

(** C1. The claim: an ability with no curated tags whose texts match no
    keyword yields the empty sequence for both values of the flag.  On the
    code, for an ability without a curated entry and with the flag set,
    [classifyAbility] stores the text classifier's [null] into a one-element
    array: the result has length 1 and holds no classification, against the
    function's own header ("empty array if no threats found"). *)
Theorem classifyAbility_returns_null_array :
  let spell := Spell.mk (Some "Strike") (Some "Hits the target.") in
  classifyCC spell = None
  ∧ classifyAbility spell None 0 false = []
  ∧ classifyAbility spell None 0 true = [None]
  ∧ length (classifyAbility spell None 0 true) = 1.
Proof. repeat split; by vm_compute. Qed.

(** C2. Where the curated tags of the ability's entry give a non-empty
    tag-based result, [classifyAbility] returns exactly that result; and for
    every ability with a curated entry the result does not depend on the
    fallback flag and holds nothing but the tag-based classifications or,
    failing those, the one text classification of a threat that is not CC. *)
Theorem classifyAbility_curated_precedence (spell : Spell.t)
    (summaryData : option ChampionSummary.t) (abilityIndex : nat)
    (allowFallbackCC : bool) (entry : AbilitySummary.t) :
  abilityEntry summaryData abilityIndex = Some entry →
  (classifyThreatTags (curatedTags entry) ≠ [] →
   classifyAbility spell summaryData abilityIndex allowFallbackCC
   = classifyThreatTags (curatedTags entry))
  ∧ classifyAbility spell summaryData abilityIndex allowFallbackCC
    = classifyAbility spell summaryData abilityIndex false
  ∧ ∀ c, c ∈ classifyAbility spell summaryData abilityIndex allowFallbackCC →
         c ∈ classifyThreatTags (curatedTags entry)
         ∨ ∃ d, c = Some d ∧ classifyCC spell = Some d
                ∧ ccType d ∈ nonCCThreats
                ∧ type d ∈ ["high"; "medium"; "low"].
Proof.
  intros Hentry.
  destruct (classifyThreatTags (curatedTags entry)) as [|t ts] eqn:Htags.
  - rewrite !(classifyAbility_untagged _ _ _ _ entry) by done.
    split; [done|]. split; [done|].
    intros c. destruct (classifyCC spell) as [d|] eqn:Htext; cbn [isNonCCThreat].
    + case_bool_decide as Hlabel; [|by intros ?%elem_of_nil].
      intros ->%list_elem_of_singleton. right. exists d.
      repeat split; try done. by apply (nonCC_not_CC spell).
    + by intros ?%elem_of_nil.
  - rewrite !(classifyAbility_tagged _ _ _ _ entry) by (by rewrite ?Htags).
    rewrite Htags. split; [done|]. split; [done|]. intros c Hc. by left.
Qed.

Lemma classifyAbility_curated_precedence_witness :
  let entry := AbilitySummary.mk (Some ["SLOW"; "KNOCKUP"]) in
  let summaryData :=
    Some (ChampionSummary.mk (Some "Alistar") (Some "alistar") (Some [Some entry])) in
  let spell := Spell.mk (Some "Pulverize") (Some "Stuns nearby enemies.") in
  abilityEntry summaryData 0 = Some entry
  ∧ classifyThreatTags (curatedTags entry) ≠ []
  ∧ classifyAbility spell summaryData 0 true
    = [Some (ccQ "hard" "Knockup" false false "hard");
       Some (cc "soft" "Slow" true "soft")].
Proof.
  intros entry summaryData spell.
  assert (abilityEntry summaryData 0 = Some entry) as Hentry by reflexivity.
  assert (classifyThreatTags (curatedTags entry) ≠ []) as Htags by (by vm_compute).
  split; [exact Hentry|]. split; [exact Htags|].
  destruct (classifyAbility_curated_precedence spell summaryData 0 true entry Hentry)
    as [Htagged _].
  rewrite (Htagged Htags). by vm_compute.
Defined.

(** C3. The claim: one classification per recognised tag, in the order of
    the priority list.  On the code, [BURST] is a key of the table but is
    missing from [priorityOrder], so an ability tagged [BURST] gets no
    classification from [classifyThreatTags]. *)
Theorem classifyThreatTags_drops_BURST :
  ccClassifications !! "BURST" = Some (cc "high" "Burst" false "high")
  ∧ ("BURST" ∉ priorityOrder)
  ∧ classifyThreatTags (Some ["BURST"]) = []
  ∧ classifyThreatTags (Some ["KNOCKUP"; "BURST"; "SLOW"])
    = [Some (ccQ "hard" "Knockup" false false "hard");
       Some (cc "soft" "Slow" true "soft")].
Proof.
  repeat split; try by vm_compute.
  apply (bool_decide_unpack _). by vm_compute.
Qed.

(** C10. At the level of one ability nothing removes a repeated label:
    [ROOT] and [SNARE] both map to "Root" and both are returned; the
    champion-level aggregation keeps one. *)
Theorem classifyThreatTags_ROOT_SNARE :
  let entry := AbilitySummary.mk (Some ["ROOT"; "SNARE"]) in
  let summary := ChampionSummary.mk (Some "Morgana") (Some "morgana") (Some [Some entry]) in
  let spell := Spell.mk (Some "Dark Binding") (Some "Roots the first enemy hit.") in
  classifyThreatTags (Some ["ROOT"; "SNARE"])
  = [Some (cc "hard" "Root" true "hard"); Some (cc "hard" "Root" true "hard")]
  ∧ classifyAbility spell (Some summary) 0 true
    = [Some (cc "hard" "Root" true "hard"); Some (cc "hard" "Root" true "hard")]
  ∧ Threat.label <$>
      analyzeThreats {[ "Morgana" := summary ]}
        (Detail.mk (Some [spell]) None) (Champion.mk "Morgana" "Morgana" None)
    = ["Root"].
Proof. repeat split; by vm_compute. Qed.

(** C4. The claim: the cascade tests cleansable hard CC (stun, root, charm,
    fear, taunt, sleep) before soft CC (slow, ...), so that a description
    with "charm" and "slow" yields Charm.  On the code [slow] is tested
    right after [root] and before [charm], and [sleep] comes last of the CC
    tests: the description below holds both words and yields Slow. *)
Lemma classifyCC_charm_slow_counterexample :
  let spell := Spell.mk (Some "Seduction") (Some "Charms and slows the target.") in
  Js.includes (descOf spell) "charm" = true
  ∧ Js.includes (descOf spell) "slow" = true
  ∧ classifyCC spell = Some (cc "soft" "Slow" true "soft")
  ∧ ccType <$> classifyCC spell ≠ Some "Charm".
Proof. repeat split; by vm_compute. Qed.

(** C4, as the code has it.  [classifyCC] returns the first match of a fixed
    cascade whose labels come in this order: Suppression; Airborne (knock,
    airborne), Pull (pull, drag), Nearsight; then the cleansable CC in the
    order Stun, Root, Slow, Charm, Fear, Taunt, Silence, Blind, Disarm,
    Cripple, Sleep; then Mobility, Burst, Stealth; Shield, Poke; Sustain.
    A description with "suppress" yields Suppression with [qssOnly] true and
    [cleansable] false whatever else it holds ("stun" included); one with
    "charm" and "slow" yields Slow or the result of an earlier test, never
    Charm. *)
Theorem classifyCC_cascade_order (spell : Spell.t) :
  classifyCC spell = firstMatch (descOf spell) (nameOf spell) ccCascade
  ∧ ccType <$> ccCascade.*2
    = ["Suppression"; "Airborne"; "Pull"; "Nearsight";
       "Stun"; "Root"; "Slow"; "Charm"; "Fear"; "Taunt"; "Silence"; "Blind";
       "Disarm"; "Cripple"; "Sleep";
       "Mobility"; "Burst"; "Stealth"; "Shield"; "Poke"; "Sustain"]
  ∧ (Js.includes (descOf spell) "suppress" = true →
     ∃ c, classifyCC spell = Some c
          ∧ type c = "suppression" ∧ ccType c = "Suppression"
          ∧ qssOnly c = Some true ∧ cleansable c = false)
  ∧ (Js.includes (descOf spell) "charm" = true →
     Js.includes (descOf spell) "slow" = true →
     ∃ c, classifyCC spell = Some c
          ∧ ccType c ∈ ["Suppression"; "Airborne"; "Pull"; "Nearsight";
                        "Stun"; "Root"; "Slow"]).
Proof.
  split; [apply classifyCC_firstMatch|]. split; [apply cascade_labels|]. split.
  - intros H. rewrite (classifyCC_suppress spell H). by eexists.
  - intros _ H.
    assert (from_option
              (λ c, bool_decide
                      (ccType c ∈ ["Suppression"; "Airborne"; "Pull"; "Nearsight";
                                   "Stun"; "Root"; "Slow"]) = true)
              False (classifyCC spell)) as Hres.
    { unfold classifyCC. fold (descOf spell). fold (nameOf spell). rewrite H.
      repeat match goal with
             | |- from_option _ _ (if ?b then _ else _) =>
                 destruct b; [by vm_compute|]
             end.
      by vm_compute. }
    destruct (classifyCC spell) as [c|]; [|done].
    cbn [from_option] in Hres. apply bool_decide_eq_true_1 in Hres.
    by exists c.
Qed.

Lemma classifyCC_cascade_order_witness :
  let spell := Spell.mk (Some "Grasp") (Some "Suppresses and stuns the target.") in
  Js.includes (descOf spell) "suppress" = true
  ∧ Js.includes (descOf spell) "stun" = true
  ∧ ∃ c, classifyCC spell = Some c
         ∧ type c = "suppression" ∧ ccType c = "Suppression"
         ∧ qssOnly c = Some true ∧ cleansable c = false.
Proof.
  intros spell.
  assert (Js.includes (descOf spell) "suppress" = true) as H by (by vm_compute).
  split; [exact H|]. split; [by vm_compute|].
  exact (proj1 (proj2 (proj2 (classifyCC_cascade_order spell))) H).
Defined.

(** C5. The claim: the description "Deals damage and stuns the target for
    1.5 seconds" is classified Stun with kind "hard".  On the code the text
    classifier files every CC that Cleanse removes, Stun included, under
    type "soft". *)
Lemma classifyCC_stun_kind_counterexample :
  let spell :=
    Spell.mk None (Some "Deals damage and stuns the target for 1.5 seconds") in
  type <$> classifyCC spell = Some "soft"
  ∧ type <$> classifyCC spell ≠ Some "hard".
Proof. split; by vm_compute. Qed.

(** C5, as the code has it.  On that description, for any ability name
    that does not contain "knock", [classifyCC] returns one classification
    with label "Stun", type "soft" and [cleansable] true. *)
Theorem classifyCC_stun_description (name : option string) :
  let spell :=
    Spell.mk name (Some "Deals damage and stuns the target for 1.5 seconds") in
  Js.includes (nameOf spell) "knock" = false →
  classifyCC spell = Some (cc "soft" "Stun" true "soft").
Proof.
  intros spell Hname. unfold classifyCC. fold (nameOf spell). rewrite Hname.
  change (Js.orString (Js.toLowerCase <$> Spell.description spell) "")
    with "deals damage and stuns the target for 1.5 seconds".
  eval_tests "deals damage and stuns the target for 1.5 seconds".
  reflexivity.
Qed.

Lemma classifyCC_stun_description_witness :
  let spell :=
    Spell.mk (Some "Dazzle")
      (Some "Deals damage and stuns the target for 1.5 seconds") in
  Js.includes (nameOf spell) "knock" = false
  ∧ classifyCC spell = Some (cc "soft" "Stun" true "soft").
Proof.
  intros spell.
  assert (Js.includes (nameOf spell) "knock" = false) as H by (by vm_compute).
  split; [exact H|]. exact (classifyCC_stun_description (Some "Dazzle") H).
Defined.

(** C8. The claim: every classification carries a boolean [qssOnly], false
    unless it is the suppression one.  On the code only five entries of the
    table set the field at all; the Stun entry of the table and every
    result of [classifyCC] but Suppression leave it undefined. *)
Lemma qssOnly_undefined_counterexample :
  classifyThreatTags (Some ["STUN"]) = [Some (cc "hard" "Stun" true "hard")]
  ∧ classifyCC (Spell.mk None (Some "Stuns the target."))
    = Some (cc "soft" "Stun" true "soft")
  ∧ qssOnly (cc "hard" "Stun" true "hard") = None
  ∧ qssOnly (cc "soft" "Stun" true "soft") ≠ Some false.
Proof. repeat split; by vm_compute. Qed.

(** C8, as the code has it.  For every classification produced by
    [classifyThreatTags] or [classifyCC], [qssOnly] is true exactly when the
    type is "suppression"; otherwise it is false or undefined, and the
    champion-level aggregation [analyzeThreats] turns it into the boolean
    "the type is suppression". *)
Theorem qssOnly_only_for_suppression (c : Classification.t) :
  (∃ threatTags, Some c ∈ classifyThreatTags threatTags)
  ∨ (∃ spell, classifyCC spell = Some c) →
  (qssOnly c = Some true ↔ type c = "suppression")
  ∧ (type c ≠ "suppression" → qssOnly c = Some false ∨ qssOnly c = None)
  ∧ Threat.qssOnly (toThreat c) = bool_decide (type c = "suppression").
Proof.
  intros Hsrc.
  assert (qssOnly c = Some true ↔ type c = "suppression") as Hiff.
  { apply (bool_decide_eq_iff (qssOnly c = Some true) (type c = "suppression")).
    destruct Hsrc as [[tags Hc] | [spell Hc]].
    - apply classifyThreatTags_defined in Hc as (k & d & Hk & Hd & [= <-]).
      pose proof qssOnly_table as Hall. rewrite Forall_forall in Hall.
      specialize (Hall k Hk). by rewrite Hd in Hall.
    - apply classifyCC_elem_of in Hc.
      pose proof qssOnly_cascade as Hall. rewrite Forall_forall in Hall.
      by apply Hall. }
  split; [exact Hiff|]. split; [|by apply toThreat_qssOnly].
  intros Hty. destruct (qssOnly c) as [[]|]; [|by left|by right].
  exfalso. by apply Hty, Hiff.
Qed.

Lemma qssOnly_only_for_suppression_witness :
  let c := ccQ "suppression" "Suppression" false true "hard" in
  Some c ∈ classifyThreatTags (Some ["SUPPRESSION"; "STUN"])
  ∧ (qssOnly c = Some true ↔ type c = "suppression")
  ∧ Threat.qssOnly (toThreat c) = true.
Proof.
  intros c.
  assert (Some c ∈ classifyThreatTags (Some ["SUPPRESSION"; "STUN"])) as Hc.
  { replace (classifyThreatTags (Some ["SUPPRESSION"; "STUN"]))
      with [Some c; Some (cc "hard" "Stun" true "hard")] by (by vm_compute).
    constructor. }
  split; [exact Hc|].
  destruct (qssOnly_only_for_suppression c) as (Hiff & _ & Hthreat).
  - left. by eexists.
  - split; [exact Hiff|]. rewrite Hthreat. by vm_compute.
Defined.

End WebClaims.

(** ** Deduplication by label *)

Section Dedup.

(** What the two front ends share: a loop that appends an element unless
    its label is in the set of labels seen so far. *)
Context {A : Type} (label : A → string).

Lemma dedupInv_empty : Props.dedupInv label ([], ∅).
Proof.
  split; [constructor|]. intros x. cbn [fst snd fmap list_fmap]. set_solver.
Qed.

Lemma dedupInv_add (st : list A * gset string) (a : A) :
  Props.dedupInv label st → label a ∉ st.2 →
  Props.dedupInv label (st.1 ++ [a], st.2 ∪ {[ label a ]}).
Proof.
  intros [Hnd Hseen] Hnew. split; cbn [fst snd]; rewrite fmap_app.
  - apply NoDup_app. split; [done|]. split; [|apply NoDup_singleton].
    intros x Hx ->%list_elem_of_singleton. by apply Hnew, Hseen.
  - intros x. rewrite elem_of_union, elem_of_singleton, elem_of_app, Hseen.
    cbn [fmap list_fmap]. by rewrite list_elem_of_singleton.
Qed.

Lemma forEachFrom_inv {B S : Type} (P : S → Prop) (f : S → B → nat → S)
    (l : list B) (i : nat) (s : S) :
  (∀ s x j, P s → P (f s x j)) → P s → P (Js.forEachFrom f i l s).
Proof.
  intros Hf. revert i s. induction l as [|x l IH]; intros i s Hs; [done|].
  cbn [Js.forEachFrom]. by apply IH, Hf.
Qed.

Lemma foldl_inv {B S : Type} (P : S → Prop) (f : S → B → S) (l : list B) (s : S) :
  (∀ s x, P s → P (f s x)) → P s → P (foldl f s l).
Proof.
  intros Hf. revert s. induction l as [|x l IH]; intros s Hs; [done|].
  cbn [foldl]. by apply IH, Hf.
Qed.

End Dedup.

(** ** The sort of the overlay *)

Section Sort.

Context {A : Type} (cmp : A → A → Z).

Lemma insertBy_Permutation (x : A) (l : list A) : Js.insertBy cmp x l ≡ₚ x :: l.
Proof.
  induction l as [|y l IH]; [done|]. cbn [Js.insertBy].
  destruct (cmp x y <=? 0)%Z; [done|]. by rewrite IH, Permutation_swap.
Qed.

(** Sorting rearranges the array and nothing else. *)
Lemma sort_Permutation (l : list A) : Js.sort cmp l ≡ₚ l.
Proof.
  induction l as [|x l IH]; [done|].
  unfold Js.sort in *. cbn [foldr]. by rewrite insertBy_Permutation, IH.
Qed.

Lemma sort_length (l : list A) : length (Js.sort cmp l) = length l.
Proof. by rewrite sort_Permutation. Qed.

End Sort.

(** ** The champion-level aggregation *)

Section ChampionLevel.

Import Props.

Lemma addThreat_inv (st : list App.Threat.t * gset string)
    (classification : option Classification.t) :
  dedupInv App.Threat.label st →
  dedupInv App.Threat.label (App.addThreat st classification).
Proof.
  intros Hst. unfold App.addThreat. destruct classification as [c|]; [|done].
  case_bool_decide as Hseen; [done|].
  by apply (dedupInv_add App.Threat.label st (App.toThreat c)).
Qed.

Lemma analyzeThreats_NoDup (championsSummary : gmap string ChampionSummary.t)
    (detail : Detail.t) (champion : Champion.t) :
  NoDup (App.Threat.label <$> App.analyzeThreats championsSummary detail champion).
Proof.
  unfold App.analyzeThreats. rewrite fmap_take.
  eapply sublist_NoDup; [|apply sublist_take].
  unfold Js.forEach.
  apply (forEachFrom_inv (dedupInv App.Threat.label)); [|apply dedupInv_empty].
  intros st spell i Hst. apply foldl_inv; [|done].
  intros st' c. apply addThreat_inv.
Qed.

Lemma analyzeThreats_length (championsSummary : gmap string ChampionSummary.t)
    (detail : Detail.t) (champion : Champion.t) :
  (length (App.analyzeThreats championsSummary detail champion) ≤ 10)%nat.
Proof. unfold App.analyzeThreats. rewrite length_take. lia. Qed.

Lemma addUnseen_inv (st : list ThreatAnalyzer.Threat.t * gset string)
    (threat : ThreatAnalyzer.Threat.t) :
  dedupInv ThreatAnalyzer.Threat.label st →
  dedupInv ThreatAnalyzer.Threat.label (ThreatAnalyzer.addUnseen st threat).
Proof.
  intros Hst. unfold ThreatAnalyzer.addUnseen.
  case_bool_decide as Hseen; [done|].
  by apply (dedupInv_add ThreatAnalyzer.Threat.label st threat).
Qed.

Lemma summaryThreats_inv (champion : Champion.t)
    (championsSummary : option ThreatAnalyzer.ChampionsSummary) :
  dedupInv ThreatAnalyzer.Threat.label
    (ThreatAnalyzer.summaryThreats champion championsSummary).
Proof.
  unfold ThreatAnalyzer.summaryThreats.
  destruct (_ ≫= _) as [abilities|]; [|apply dedupInv_empty].
  apply (forEachFrom_inv (dedupInv ThreatAnalyzer.Threat.label));
    [|apply dedupInv_empty].
  intros st ability i Hst. apply foldl_inv; [|done].
  intros st' t. apply addUnseen_inv.
Qed.

Lemma analyzeChampion_NoDup (localeCompare : string → string → Z)
    (champion : option Champion.t)
    (championsSummary : option ThreatAnalyzer.ChampionsSummary) :
  NoDup (ThreatAnalyzer.Threat.label <$>
           ThreatAnalyzer.analyzeChampion localeCompare champion championsSummary).
Proof.
  unfold ThreatAnalyzer.analyzeChampion.
  destruct champion as [champion|]; [|constructor].
  unfold ThreatAnalyzer.sortByPriority. rewrite sort_Permutation.
  pose proof (summaryThreats_inv champion championsSummary) as Hst.
  case_bool_decide; [|apply Hst].
  apply (foldl_inv (dedupInv ThreatAnalyzer.Threat.label)); [|done].
  intros st' t. apply addUnseen_inv.
Qed.

End ChampionLevel.

(** ** The claims about the champion level and the overlay *)

Section OverlayClaims.

Import Props ThreatAnalyzer.

(** With nothing found in the summary, [analyzeChampion] is the sorted
    role-tag fallback. *)
Lemma analyzeFromTags_NoDup (tags : list string) :
  NoDup (Threat.label <$> analyzeFromTags tags).
Proof.
  unfold analyzeFromTags.
  repeat case_bool_decide; cbn; apply (bool_decide_unpack _); by vm_compute.
Qed.

Lemma foldl_addUnseen_fresh (threats : list Threat.t) :
  NoDup (Threat.label <$> threats) →
  ∀ st, dedupInv Threat.label st →
        (∀ t, t ∈ threats → Threat.label t ∉ st.2) →
        (foldl addUnseen st threats).1 = st.1 ++ threats.
Proof.
  induction threats as [|t threats IH]; intros Hnd st Hst Hfresh.
  - by rewrite app_nil_r.
  - rewrite fmap_cons in Hnd. apply NoDup_cons in Hnd as [Ht Hnd].
    cbn [foldl]. unfold addUnseen at 2.
    rewrite bool_decide_eq_false_2 by (apply Hfresh; constructor).
    rewrite IH; [cbn [fst]; by rewrite <-app_assoc|done| |].
    + by apply (dedupInv_add Threat.label), Hfresh, list_elem_of_here.
    + intros t' Ht'. cbn [snd]. rewrite not_elem_of_union. split.
      * apply Hfresh. by constructor.
      * rewrite elem_of_singleton. intros Heq. apply Ht.
        rewrite <-Heq. by apply list_elem_of_fmap_2.
Qed.

Lemma analyzeChampion_fallback (localeCompare : string → string → Z)
    (champion : Champion.t) (championsSummary : option ChampionsSummary) :
  (summaryThreats champion championsSummary).1 = [] →
  analyzeChampion localeCompare (Some champion) championsSummary
  = sortByPriority localeCompare
      (analyzeFromTags (default [] (Champion.tags champion))).
Proof.
  intros Hnil. unfold analyzeChampion.
  pose proof (summaryThreats_inv champion championsSummary) as Hst.
  rewrite Hnil. rewrite bool_decide_eq_true_2 by done.
  rewrite foldl_addUnseen_fresh; [by rewrite Hnil|apply analyzeFromTags_NoDup|done|].
  intros t _. destruct Hst as [_ Hseen]. rewrite Hseen, Hnil.
  apply not_elem_of_nil.
Qed.

Lemma analyzeChampion_curated (localeCompare : string → string → Z)
    (champion : Champion.t) (championsSummary : option ChampionsSummary) :
  (summaryThreats champion championsSummary).1 ≠ [] →
  analyzeChampion localeCompare (Some champion) championsSummary
  = sortByPriority localeCompare (summaryThreats champion championsSummary).1.
Proof.
  intros Hne. unfold analyzeChampion.
  rewrite bool_decide_eq_false_2; [done|].
  by destruct (summaryThreats champion championsSummary).1.
Qed.

Lemma summaryThreats_tags (c1 c2 : Champion.t)
    (championsSummary : option ChampionsSummary) :
  Champion.id c1 = Champion.id c2 → Champion.name c1 = Champion.name c2 →
  summaryThreats c1 championsSummary = summaryThreats c2 championsSummary.
Proof.
  intros Hid Hname. unfold summaryThreats, findChampionSummary.
  by rewrite Hid, Hname.
Qed.

(** C6. The claim: both front ends list the most threatening class first,
    suppression and the hard CC that Cleanse does not remove above the hard
    CC it removes.  The web page does ([classifyThreatTags_most_threatening_first]).
    The overlay declares the same [PRIORITY_ORDER] but [sortByPriority] does
    not read it: it sorts on the type alone, "hard" before "suppression",
    then on the label.  For a champion with Fear on E and a suppression on R
    the overlay lists Fear first, whatever the collation. *)
Theorem sortByPriority_suppression_below_cleansable
    (localeCompare : string → string → Z) :
  let summary :=
    ChampionSummary.mk (Some "Warwick") (Some "warwick")
      (Some [Some (AbilitySummary.mk (Some ["SUSTAIN"]));
             Some (AbilitySummary.mk (Some []));
             Some (AbilitySummary.mk (Some ["FEAR"]));
             Some (AbilitySummary.mk (Some ["SUPPRESSION"]))]) in
  let champion := Champion.mk "Warwick" "Warwick" (Some ["Fighter"; "Tank"]) in
  let threats :=
    analyzeChampion localeCompare (Some champion) (Some (ChampionsArray [summary])) in
  Threat.label <$> threats = ["Fear"; "Suppression"; "Sustain"]
  ∧ classOfThreat <$> threats = [1; 0; 3]
  ∧ ¬ StronglySorted le (classOfThreat <$> threats)
  ∧ (from_option Classification.ccType "" <$>
       App.classifyThreatTags (Some ["SUSTAIN"; "FEAR"; "SUPPRESSION"]))
    = ["Suppression"; "Fear"; "Sustain"]
  ∧ take 1 PRIORITY_ORDER = ["SUPPRESSION"].
Proof.
  intros summary champion threats.
  assert (classOfThreat <$> threats = [1; 0; 3]) as Hclasses by (by vm_compute).
  split; [by vm_compute|]. split; [exact Hclasses|]. split; [|by split; vm_compute].
  rewrite Hclasses. intros [_ Hall]%StronglySorted_inv.
  apply Forall_cons in Hall as [Hle _]. lia.
Qed.

(** C7. The claim: at most one classification per label and never more
    than 10 entries.  The overlay's [analyzeChampion] has no cap: twelve
    curated tags with distinct labels give twelve entries. *)
Lemma analyzeChampion_uncapped_counterexample :
  let summary :=
    ChampionSummary.mk (Some "Test") (Some "test")
      (Some [Some (AbilitySummary.mk (Some ["KNOCKUP"; "STUN"; "SLOW"]));
             Some (AbilitySummary.mk (Some ["SHIELD"; "DASH"; "SUSTAIN"]));
             Some (AbilitySummary.mk (Some ["ROOT"; "SILENCE"; "BURST"]));
             Some (AbilitySummary.mk (Some ["SUPPRESSION"; "STEALTH"; "GAP_CLOSE"]))]) in
  let threats :=
    analyzeChampion Js.codeUnitCompare (Some (Champion.mk "test" "Test" None))
      (Some (ChampionsArray [summary])) in
  length threats = 12 ∧ ¬ (length threats ≤ 10)%nat.
Proof.
  intros summary threats.
  assert (length threats = 12) as Hlen by (by vm_compute).
  split; [exact Hlen|]. rewrite Hlen. lia.
Qed.

(** C7, as the code has it.  Both champion-level aggregations return at
    most one entry per label; the web page's [analyzeThreats] never returns
    more than 10 entries, the overlay's [analyzeChampion] is not capped.
    Four abilities that each produce the label "Shield" give one "Shield"
    entry, from the texts, from the curated tags and in the overlay. *)
Theorem champion_aggregation_one_per_label :
  (∀ championsSummary detail champion,
     NoDup (App.Threat.label <$> App.analyzeThreats championsSummary detail champion)
     ∧ (length (App.analyzeThreats championsSummary detail champion) ≤ 10)%nat)
  ∧ (∀ localeCompare champion championsSummary,
       NoDup (Threat.label <$> analyzeChampion localeCompare champion championsSummary))
  ∧ (let spell := Spell.mk (Some "Barrier") (Some "Grants a shield to an ally.") in
     let summary :=
       ChampionSummary.mk (Some "Test") (Some "test")
         (Some (replicate 4 (Some (AbilitySummary.mk (Some ["SHIELD"]))))) in
     let detail := Detail.mk (Some (replicate 4 spell)) None in
     let champion := Champion.mk "test" "Test" None in
     App.Threat.label <$> App.analyzeThreats ∅ detail champion = ["Shield"]
     ∧ App.Threat.label <$> App.analyzeThreats {[ "Test" := summary ]} detail champion
       = ["Shield"]
     ∧ Threat.label <$>
         analyzeChampion Js.codeUnitCompare (Some champion)
           (Some (ChampionsObject {[ "Test" := summary ]}))
       = ["Shield"]).
Proof.
  split; [|split].
  - intros cs detail champion.
    split; [apply analyzeThreats_NoDup | apply analyzeThreats_length].
  - intros lc champion cs. apply analyzeChampion_NoDup.
  - repeat split; by vm_compute.
Qed.

(** C9. The claim: the output never depends on the champion's role tags.
    [analyzeChampion] falls back on them when the summary gives nothing:
    two champions that differ in their role tags only get different
    threats. *)
Lemma analyzeChampion_role_tags_counterexample :
  let zed := Champion.mk "Zed" "Zed" (Some ["Assassin"]) in
  let zed' := Champion.mk "Zed" "Zed" (Some ["Marksman"]) in
  Threat.label <$> analyzeChampion Js.codeUnitCompare (Some zed) None = ["Assassin"]
  ∧ analyzeChampion Js.codeUnitCompare (Some zed') None = []
  ∧ analyzeChampion Js.codeUnitCompare (Some zed) None
    ≠ analyzeChampion Js.codeUnitCompare (Some zed') None.
Proof.
  intros zed zed'.
  assert (analyzeChampion Js.codeUnitCompare (Some zed') None = []) as Hnil
    by (by vm_compute).
  split; [by vm_compute|]. split; [exact Hnil|].
  rewrite Hnil. by vm_compute.
Qed.

(** C9, as the code has it.  For two champions with the same id and name:
    the web page's [analyzeThreats] returns the same threats; the overlay's
    [analyzeChampion] returns the same threats whenever the curated summary
    yields at least one; and when it yields none the overlay returns the
    sorted role-tag fallback [analyzeFromTags] (Assassin, Fighter, Tank,
    Mage).  [classifyAbility] does not take the champion at all. *)
Theorem role_tags_only_in_fallback (c1 c2 : Champion.t) :
  Champion.id c1 = Champion.id c2 →
  Champion.name c1 = Champion.name c2 →
  (∀ championsSummary detail,
     App.analyzeThreats championsSummary detail c1
     = App.analyzeThreats championsSummary detail c2)
  ∧ (∀ localeCompare championsSummary,
       (summaryThreats c1 championsSummary).1 ≠ [] →
       analyzeChampion localeCompare (Some c1) championsSummary
       = analyzeChampion localeCompare (Some c2) championsSummary)
  ∧ (∀ localeCompare championsSummary,
       (summaryThreats c1 championsSummary).1 = [] →
       analyzeChampion localeCompare (Some c1) championsSummary
       = sortByPriority localeCompare
           (analyzeFromTags (default [] (Champion.tags c1)))).
Proof.
  intros Hid Hname. split; [|split].
  - intros cs detail. unfold App.analyzeThreats, App.summaryFor.
    by rewrite Hid, Hname.
  - intros lc cs Hne. rewrite !analyzeChampion_curated.
    + by rewrite (summaryThreats_tags c1 c2).
    + by rewrite <-(summaryThreats_tags c1 c2).
    + done.
  - intros lc cs Hnil. by apply analyzeChampion_fallback.
Qed.

Lemma role_tags_only_in_fallback_witness :
  let ahri := Champion.mk "Ahri" "Ahri" (Some ["Mage"; "Assassin"]) in
  let ahri' := Champion.mk "Ahri" "Ahri" (Some ["Support"]) in
  let summary :=
    Some (ChampionsArray [
      ChampionSummary.mk (Some "Ahri") (Some "ahri")
        (Some [Some (AbilitySummary.mk None); Some (AbilitySummary.mk None);
               Some (AbilitySummary.mk (Some ["CHARM"]));
               Some (AbilitySummary.mk (Some ["DASH"]))])]) in
  Champion.id ahri = Champion.id ahri'
  ∧ Champion.name ahri = Champion.name ahri'
  ∧ (summaryThreats ahri summary).1 ≠ []
  ∧ analyzeChampion Js.codeUnitCompare (Some ahri) summary
    = analyzeChampion Js.codeUnitCompare (Some ahri') summary.
Proof.
  intros ahri ahri' summary.
  assert ((summaryThreats ahri summary).1 ≠ []) as Hne by (by vm_compute).
  split; [reflexivity|]. split; [reflexivity|]. split; [exact Hne|].
  destruct (role_tags_only_in_fallback ahri ahri' eq_refl eq_refl) as (_ & Hcur & _).
  exact (Hcur Js.codeUnitCompare summary Hne).
Defined.

End OverlayClaims.

(** * Further properties of the code *)

(** ** The sanitizers *)

Section Sanitizers.

Import SecurityUtils.

Lemma chars_append (a b : string) :
  list_ascii_of_string (a +:+ b) = list_ascii_of_string a ++ list_ascii_of_string b.
Proof.
  induction a as [|c a IH]; [done|].
  rewrite append_String. cbn [list_ascii_of_string]. by rewrite IH.
Qed.


Lemma isHtmlSpecial_cases (c : ascii) :
  isHtmlSpecial c = true →
  c ∈ ["&"; "<"; ">"; "034"; "'"; "`"; "="; "/"]%char.
Proof.
  unfold isHtmlSpecial. rewrite !orb_true_iff, !Ascii.eqb_eq.
  intros [[[[[[[->| ->]| ->]| ->]| ->]| ->]| ->]| ->]; set_solver.
Qed.

Lemma replaceEach_id (inClass : ascii → bool) (f : ascii → string) (s : string) :
  Forall (λ c, inClass c = false) (list_ascii_of_string s) →
  Js.replaceEach inClass f s = s.
Proof.
  induction s as [|c s IH]; [done|].
  cbn [list_ascii_of_string Js.replaceEach]. intros [Hc Hs]%Forall_cons.
  by rewrite Hc, append_String, append_empty, IH.
Qed.

(** The replacement of one code unit by [escapeHtml]. *)
Lemma escape_piece (c : ascii) :
  (isHtmlSpecial c = false
   ∧ (if isHtmlSpecial c then entityOf c else String c EmptyString) = String c EmptyString)
  ∨ (isHtmlSpecial c = true
     ∧ (c, if isHtmlSpecial c then entityOf c else String c EmptyString) ∈ htmlEntities).
Proof.
  destruct (isHtmlSpecial c) eqn:Hc; [right|by left].
  split; [done|].
  apply isHtmlSpecial_cases in Hc.
  repeat (apply elem_of_cons in Hc as [->|Hc]; [by vm_compute; set_solver|]).
  by apply elem_of_nil in Hc.
Qed.




Ltac append_norm H := rewrite ?append_String, ?append_empty in H.

(** No replacement of [escapeHtml] is the beginning of another one. *)
Lemma escape_piece_inj (c1 c2 : ascii) (r1 r2 : string) :
  (if isHtmlSpecial c1 then entityOf c1 else String c1 EmptyString) +:+ r1
  = (if isHtmlSpecial c2 then entityOf c2 else String c2 EmptyString) +:+ r2 →
  c1 = c2 ∧ r1 = r2.
Proof.
  destruct (escape_piece c1) as [[H1 ->] | [H1 Hin1]];
    destruct (escape_piece c2) as [[H2 ->] | [H2 Hin2]].
  - rewrite !append_String, !append_empty. by intros [= -> ->].
  - revert Hin2. generalize (if isHtmlSpecial c2 then entityOf c2 else String c2 "").
    intros p Hin2 Heq. exfalso.
    repeat (apply elem_of_cons in Hin2 as [[= -> ->]|Hin2];
            [append_norm Heq; injection Heq as -> _; by vm_compute in H1|]).
    by apply elem_of_nil in Hin2.
  - revert Hin1. generalize (if isHtmlSpecial c1 then entityOf c1 else String c1 "").
    intros p Hin1 Heq. exfalso.
    repeat (apply elem_of_cons in Hin1 as [[= -> ->]|Hin1];
            [append_norm Heq; injection Heq as <- _; by vm_compute in H2|]).
    by apply elem_of_nil in Hin1.
  - revert Hin1 Hin2.
    generalize (if isHtmlSpecial c1 then entityOf c1 else String c1 "").
    generalize (if isHtmlSpecial c2 then entityOf c2 else String c2 "").
    intros p2 p1 Hin1 Hin2 Heq.
    repeat (apply elem_of_cons in Hin1 as [[= -> ->]|Hin1];
            [repeat (apply elem_of_cons in Hin2 as [[= -> ->]|Hin2];
                     [append_norm Heq; try discriminate Heq;
                      by injection Heq as ->|]);
             by apply elem_of_nil in Hin2|]).
    by apply elem_of_nil in Hin1.
Qed.

Lemma escape_piece_nonempty (c : ascii) (r : string) :
  EmptyString
  ≠ (if isHtmlSpecial c then entityOf c else String c EmptyString) +:+ r.
Proof.
  destruct (escape_piece c) as [[_ ->] | [_ Hin]]; [by rewrite append_String|].
  revert Hin. generalize (if isHtmlSpecial c then entityOf c else String c "").
  intros p Hin.
  repeat (apply elem_of_cons in Hin as [[= -> ->]|Hin]; [by rewrite append_String|]).
  by apply elem_of_nil in Hin.
Qed.

(** X2. [escapeHtml] loses nothing: two different strings are escaped to
    two different texts. *)
Theorem escapeHtml_injective (s1 s2 : string) :
  escapeHtml (Some s1) = escapeHtml (Some s2) → s1 = s2.
Proof.
  cbn [escapeHtml]. revert s2.
  induction s1 as [|c1 s1 IH]; intros [|c2 s2]; cbn [Js.replaceEach]; [done| | |].
  - intros Heq. by apply escape_piece_nonempty in Heq.
  - intros Heq. symmetry in Heq. by apply escape_piece_nonempty in Heq.
  - intros [-> Hr]%escape_piece_inj. f_equal. by apply IH.
Qed.

Lemma escapeHtml_injective_witness :
  escapeHtml (Some "a<b") = escapeHtml (Some "a<b") ∧ "a<b" = "a<b".
Proof.
  split; [reflexivity|]. exact (escapeHtml_injective "a<b" "a<b" eq_refl).
Defined.

Lemma chars_toLowerCase (s : string) :
  list_ascii_of_string (Js.toLowerCase s) = Js.lowerChar <$> list_ascii_of_string s.
Proof.
  induction s as [|c s IH]; [done|].
  cbn [Js.toLowerCase list_ascii_of_string]. by rewrite IH.
Qed.

Lemma chars_inj (s1 s2 : string) :
  list_ascii_of_string s1 = list_ascii_of_string s2 → s1 = s2.
Proof.
  intros H. by rewrite <-(string_of_list_ascii_of_string s1), H,
    string_of_list_ascii_of_string.
Qed.

(** The replacement of [sanitizeKey] works unit by unit. *)
Lemma chars_underscored (key : string) :
  list_ascii_of_string (Js.replaceEach (λ c, negb (Js.isWordChar c)) (λ _, "_") key)
  = (λ c, if Js.isWordChar c then c else "_"%char) <$> list_ascii_of_string key.
Proof.
  induction key as [|c key IH]; [done|].
  cbn [Js.replaceEach list_ascii_of_string]. rewrite chars_append, IH, fmap_cons.
  by destruct (Js.isWordChar c).
Qed.

Lemma underscored_without_underscore (l : list ascii) :
  "_"%char ∉ ((λ c, if Js.isWordChar c then c else "_"%char) <$> l) →
  (λ c, if Js.isWordChar c then c else "_"%char) <$> l = l.
Proof.
  induction l as [|c l IH]; [done|].
  rewrite fmap_cons, not_elem_of_cons. intros [Hc Hl].
  rewrite IH by done. destruct (Js.isWordChar c); [done|]. by destruct Hc.
Qed.

Lemma lowerChar_underscore : Js.lowerChar "_" = "_"%char.
Proof. reflexivity. Qed.

(** A word without underscore is not the lower case of a text with one. *)
Lemma lower_without_underscore (k word : string) :
  Js.toLowerCase k = word →
  "_"%char ∉ list_ascii_of_string word →
  "_"%char ∉ list_ascii_of_string k.
Proof.
  intros <- Hword Hk. apply Hword. rewrite chars_toLowerCase.
  rewrite <-lowerChar_underscore. by apply list_elem_of_fmap_2.
Qed.

(** X3. [sanitizeKey] answers [null] exactly on the three blocked words,
    in any letter case.  Otherwise its result has the length of the key and
    only letters, digits and underscores; it is never "constructor" or
    "prototype" in any letter case, and it can be "__proto__" only when the
    key itself was something else, an underscore of the result standing
    for another character of the key. *)
Theorem sanitizeKey_result (key : string) :
  (sanitizeKey (Some key) = None ↔ Js.toLowerCase key ∈ blockedKeys)
  ∧ ∀ k, sanitizeKey (Some key) = Some k →
         Forall (λ c, Js.isWordChar c = true) (list_ascii_of_string k)
         ∧ length (list_ascii_of_string k) = length (list_ascii_of_string key)
         ∧ (Js.toLowerCase k ∉ ["constructor"; "prototype"])
         ∧ (Js.toLowerCase k = "__proto__" → k ≠ key).
Proof.
  unfold sanitizeKey. case_bool_decide as Hblocked.
  { split; [done|]. by intros k [=]. }
  split; [split; [by destruct (negb _) | done]|].
  intros k Hk.
  assert (isPlainKey key = true → k = key) as Hplain.
  { intros Hp. rewrite Hp in Hk. by injection Hk. }
  assert (list_ascii_of_string k
          = (λ c, if Js.isWordChar c then c else "_"%char) <$> list_ascii_of_string key)
    as Hchars.
  { destruct (isPlainKey key) eqn:Hp.
    - rewrite (Hplain eq_refl). unfold isPlainKey in Hp.
      apply andb_true_iff in Hp as [_ Hp]. rewrite forallb_forall in Hp.
      induction (list_ascii_of_string key) as [|c l IH]; [done|].
      rewrite fmap_cons, (Hp c) by (by left). rewrite <-IH; [done|].
      intros x Hx. apply Hp. by right.
    - cbn [negb] in Hk. injection Hk as <-. apply chars_underscored. }
  assert ("_"%char ∉ list_ascii_of_string k → k = key) as Hsame.
  { intros Hno. apply chars_inj. rewrite Hchars in Hno |- *.
    by apply underscored_without_underscore. }
  split; [|split; [|split]].
  - rewrite Hchars, Forall_fmap. apply Forall_forall. intros c _. cbn.
    destruct (Js.isWordChar c) eqn:Hc; [done|reflexivity].
  - by rewrite Hchars, length_fmap.
  - intros Hword. apply Hblocked.
    assert (k = key) as <-.
    { apply Hsame. pose proof Hword as Hw.
      repeat (apply elem_of_cons in Hw as [Hw|Hw];
              [apply (lower_without_underscore k _ Hw);
               apply (bool_decide_unpack _); by vm_compute|]).
      by apply elem_of_nil in Hw. }
    unfold blockedKeys. by right.
  - intros Hproto ->. apply Hblocked. rewrite Hproto. unfold blockedKeys. by left.
Qed.

Lemma sanitizeKey_result_witness :
  sanitizeKey (Some "-_proto__") = Some "__proto__"
  ∧ Js.toLowerCase "__proto__" = "__proto__"
  ∧ "__proto__" ≠ "-_proto__".
Proof.
  assert (sanitizeKey (Some "-_proto__") = Some "__proto__") as H by (by vm_compute).
  split; [exact H|]. split; [reflexivity|].
  destruct (sanitizeKey_result "-_proto__") as [_ Hres].
  destruct (Hres "__proto__" H) as (_ & _ & _ & Hne). by apply Hne.
Defined.

End Sanitizers.

(** ** What the sort guarantees *)

Section SortOrder.

Context {A : Type} (cmp : A → A → Z) (R : relation A) `{!Transitive R}.

(** The comparator and the order agree: not greater means before. *)
Hypothesis cmp_le : ∀ x y, (cmp x y ≤ 0)%Z → R x y.
Hypothesis cmp_gt : ∀ x y, (0 < cmp x y)%Z → R y x.

Lemma insertBy_sorted (x : A) (l : list A) :
  StronglySorted R l → StronglySorted R (Js.insertBy cmp x l).
Proof.
  induction l as [|y l IH]; intros Hl; cbn [Js.insertBy].
  - repeat constructor.
  - apply StronglySorted_inv in Hl as [Hl Hy].
    destruct (cmp x y <=? 0)%Z eqn:Hcmp.
    + apply Z.leb_le, cmp_le in Hcmp.
      constructor; [by constructor|]. constructor; [done|].
      eapply Forall_impl; [exact Hy|]. intros z Hz. by transitivity y.
    + apply Z.leb_gt, cmp_gt in Hcmp.
      constructor; [by apply IH|].
      rewrite insertBy_Permutation. by constructor.
Qed.

Lemma sort_sorted (l : list A) : StronglySorted R (Js.sort cmp l).
Proof.
  induction l as [|x l IH]; [constructor|].
  unfold Js.sort in *. cbn [foldr]. by apply insertBy_sorted.
Qed.

End SortOrder.

Section SortedLists.

Context {A : Type} (R : relation A).

Lemma StronglySorted_take (n : nat) (l : list A) :
  StronglySorted R l → StronglySorted R (take n l).
Proof.
  revert n. induction l as [|x l IH]; intros [|n] Hl; cbn [take]; try constructor.
  - apply IH. by apply StronglySorted_inv in Hl as [Hl _].
  - apply StronglySorted_inv in Hl as [_ Hx].
    eapply Forall_forall. intros y Hy. rewrite Forall_forall in Hx.
    apply Hx. by apply (subseteq_take n l).
Qed.

Lemma StronglySorted_lookup_lt (l : list A) (i j : nat) (a b : A) :
  StronglySorted R l → (i < j)%nat →
  l !! i = Some a → l !! j = Some b → R a b.
Proof.
  intros Hl. revert i j. induction Hl as [|x l Hl IH Hx]; intros i j Hij Ha Hb.
  - done.
  - destruct j as [|j]; [lia|]. destruct i as [|i].
    + cbn in Ha, Hb. injection Ha as <-. rewrite Forall_forall in Hx. apply Hx.
      by apply list_elem_of_lookup_2 in Hb.
    + cbn in Ha, Hb. apply (IH i j); [lia|done..].
Qed.

End SortedLists.

(** ** The champion search *)

Section ChampionSearch.

Import ChampionDataLoader.



(** The two front ends normalise in the same way. *)
Lemma normalizeForSearch_same (text : string) :
  App.normalizeForSearch text = normalizeForSearch text.
Proof. reflexivity. Qed.




Lemma filter_sublist {A : Type} (f : A → bool) (l : list A) :
  List.filter f l `sublist_of` l.
Proof.
  induction l as [|x l IH]; [constructor|].
  cbn [List.filter]. destruct (f x); by constructor.
Qed.

Lemma slice0_sublist {A : Type} (l : list A) (end_ : Z) :
  Js.slice0 l end_ `sublist_of` l.
Proof. unfold Js.slice0. destruct (end_ <? 0)%Z; apply sublist_take. Qed.

Lemma slice0_length {A : Type} (l : list A) (end_ : Z) :
  (0 ≤ end_)%Z → (Z.of_nat (length (Js.slice0 l end_)) ≤ end_)%Z.
Proof.
  intros Hend. unfold Js.slice0.
  rewrite (proj2 (Z.ltb_ge end_ 0)) by done. rewrite length_take. lia.
Qed.

Section SearchCollation.

Variable localeCompare : string → string → Z.

(** X5. [searchChampions] invents nothing and respects its limit: the
    result is part of the loaded champions (no champion more often than it
    is loaded), every champion returned has the normalised query inside its
    normalised name, and with a limit that is not negative (5 when none is
    given) the result is no longer than the limit.  Without loaded
    champions or with an empty query the result is empty. *)
Theorem searchChampions_results (champions : option (list Champion.t))
    (query : string) (limit : option Z) :
  let result := searchChampions localeCompare champions query limit in
  result ⊆+ default [] champions
  ∧ (∀ c, c ∈ result →
          Js.includes (normalizeForSearch (Champion.name c))
            (normalizeForSearch query) = true)
  ∧ ((0 ≤ default 5 limit)%Z → (Z.of_nat (length result) ≤ default 5 limit)%Z)
  ∧ (champions = None ∨ query = "" → result = []).
Proof.
  intros result. subst result. unfold searchChampions.
  destruct champions as [champions|]; cbn [default].
  2:{ split; [done|]. split; [by intros c ?%elem_of_nil|].
      split; [cbn [length]; lia | done]. }
  destruct (String.eqb_spec query "") as [->|Hquery].
  { split; [apply submseteq_nil_l|]. split; [by intros c ?%elem_of_nil|].
    split; [cbn [length]; lia | done]. }
  set (normalized := normalizeForSearch query).
  set (matches := List.filter _ champions).
  split; [|split; [|split]].
  - transitivity (Js.sort (compareMatches localeCompare normalized) matches).
    { apply sublist_submseteq, slice0_sublist. }
    rewrite sort_Permutation. apply sublist_submseteq, filter_sublist.
  - intros c Hc.
    assert (c ∈ matches) as Hm.
    { rewrite <-(sort_Permutation (compareMatches localeCompare normalized)).
      eapply elem_of_sublist; [exact Hc | apply slice0_sublist]. }
    apply list_elem_of_In, filter_In in Hm. apply Hm.
  - apply slice0_length.
  - by intros [[=]|?].
Qed.

(** X6. In the result of [searchChampions] the champions whose normalised
    name starts with the normalised query come before all the others,
    whatever the collation of the names. *)
Theorem searchChampions_prefix_first (champions : option (list Champion.t))
    (query : string) (limit : option Z) (i j : nat) (a b : Champion.t) :
  let result := searchChampions localeCompare champions query limit in
  let starts (c : Champion.t) :=
    Js.startsWith (normalizeForSearch (Champion.name c)) (normalizeForSearch query) in
  (i < j)%nat → result !! i = Some a → result !! j = Some b →
  starts b = true → starts a = true.
Proof.
  intros result starts Hij Ha Hb. subst result. unfold searchChampions in Ha, Hb.
  destruct champions as [champions|]; [|done].
  destruct (String.eqb query ""); [done|].
  revert Ha Hb.
  set (normalized := normalizeForSearch query).
  set (matches := List.filter _ champions).
  intros Ha Hb.
  assert (StronglySorted (λ x y, starts y = true → starts x = true)
            (Js.slice0 (Js.sort (compareMatches localeCompare normalized) matches)
               (default 5%Z limit))) as Hsorted.
  { unfold Js.slice0. destruct (_ <? 0)%Z; apply StronglySorted_take.
    all: apply sort_sorted; [by intros x y z Hxy Hyz Hz; apply Hxy, Hyz | |].
    all: intros x y; unfold compareMatches; fold normalized;
      change (Js.startsWith (normalizeForSearch (Champion.name x)) normalized)
        with (starts x);
      change (Js.startsWith (normalizeForSearch (Champion.name y)) normalized)
        with (starts y);
      destruct (starts x), (starts y); cbn; try done; lia. }
  by apply (StronglySorted_lookup_lt _ _ i j a b Hsorted Hij).
Qed.

End SearchCollation.

Lemma searchChampions_results_witness :
  let champions :=
    Some [Champion.mk "Kaisa" "Kai'Sa" None; Champion.mk "Akali" "Akali" None;
          Champion.mk "Kalista" "Kalista" None] in
  (0 ≤ default 5 (Some 1))%Z
  ∧ (Z.of_nat (length (searchChampions Js.codeUnitCompare champions "ka" (Some 1%Z))) ≤ 1)%Z.
Proof.
  intros champions.
  assert (0 ≤ default 5 (Some 1))%Z as H by (cbn; lia).
  split; [exact H|].
  exact (proj1 (proj2 (proj2 (searchChampions_results Js.codeUnitCompare champions "ka" (Some 1%Z)))) H).
Defined.

Lemma searchChampions_prefix_first_witness :
  let kalista := Champion.mk "Kalista" "Kalista" None in
  let karma := Champion.mk "Karma" "Karma" None in
  let champions := Some [Champion.mk "Akali" "Akali" None; karma; kalista] in
  let result := searchChampions Js.codeUnitCompare champions "ka" None in
  result !! 0 = Some kalista
  ∧ result !! 1 = Some karma
  ∧ Js.startsWith (normalizeForSearch (Champion.name karma)) (normalizeForSearch "ka")
    = true
  ∧ Js.startsWith (normalizeForSearch (Champion.name kalista)) (normalizeForSearch "ka")
    = true.
Proof.
  intros kalista karma champions result.
  assert (result !! 0 = Some kalista) as H0 by (by vm_compute).
  assert (result !! 1 = Some karma) as H1 by (by vm_compute).
  assert (Js.startsWith (normalizeForSearch (Champion.name karma))
            (normalizeForSearch "ka") = true) as Hb by (by vm_compute).
  split; [exact H0|]. split; [exact H1|]. split; [exact Hb|].
  exact (searchChampions_prefix_first Js.codeUnitCompare champions "ka" None
           0 1 kalista karma (Nat.lt_0_1) H0 H1 Hb).
Defined.


(** X7. [getChampionByName] finds every loaded champion by its name, and
    by any text that normalises to the same: the champion returned has that
    normalised name.  It answers [null] only when no loaded champion has
    it. *)
Theorem getChampionByName_finds (champions : list Champion.t) (name : string) :
  (∀ c, c ∈ champions →
        normalizeForSearch (Champion.name c) = normalizeForSearch name →
        ∃ c', getChampionByName (Some champions) name = Some c'
              ∧ c' ∈ champions
              ∧ normalizeForSearch (Champion.name c') = normalizeForSearch name)
  ∧ (getChampionByName (Some champions) name = None →
     ∀ c, c ∈ champions →
          normalizeForSearch (Champion.name c) ≠ normalizeForSearch name).
Proof.
  unfold getChampionByName.
  destruct (List.find _ champions) as [c'|] eqn:Hfind.
  - apply find_some in Hfind as [Hin Heq]. apply String.eqb_eq in Heq.
    split; [|done]. intros c _ _. exists c'. by rewrite <-list_elem_of_In in Hin.
  - split.
    + intros c Hc Heq. apply list_elem_of_In in Hc.
      pose proof (find_none _ _ Hfind c Hc) as Hne. cbn in Hne.
      by apply String.eqb_neq in Hne.
    + intros _ c Hc Heq. apply list_elem_of_In in Hc.
      pose proof (find_none _ _ Hfind c Hc) as Hne. cbn in Hne.
      by apply String.eqb_neq in Hne.
Qed.

Lemma getChampionByName_finds_witness :
  let kaisa := Champion.mk "Kaisa" "Kai'Sa" None in
  let champions := [Champion.mk "Akali" "Akali" None; kaisa] in
  kaisa ∈ champions
  ∧ normalizeForSearch (Champion.name kaisa) = normalizeForSearch "kai sa"
  ∧ ∃ c', getChampionByName (Some champions) "kai sa" = Some c'
          ∧ c' ∈ champions
          ∧ normalizeForSearch (Champion.name c') = normalizeForSearch "kai sa".
Proof.
  intros kaisa champions.
  assert (kaisa ∈ champions) as Hin by (right; left).
  split; [exact Hin|]. split; [reflexivity|].
  exact (proj1 (getChampionByName_finds champions "kai sa") kaisa Hin eq_refl).
Defined.

End ChampionSearch.

(** ** Loops with an index *)

Section IndexedLoops.

Context {A S : Type} (f : S → A → nat → S).

(** An invariant of [forEach] may use that the callback is given an
    element together with its index. *)
Lemma forEach_inv_lookup (P : S → Prop) (l : list A) (s : S) :
  (∀ s x j, l !! j = Some x → P s → P (f s x j)) →
  P s → P (Js.forEach f l s).
Proof.
  intros Hf. unfold Js.forEach.
  assert (∀ k i s, (∀ j x, k !! j = Some x → l !! (i + j) = Some x) →
                   P s → P (Js.forEachFrom f i k s)) as Hgen.
  { induction k as [|x k IH]; intros i s' Hk Hs; [done|].
    cbn [Js.forEachFrom]. apply IH.
    - intros j y Hy. replace (Datatypes.S i + j) with (i + Datatypes.S j) by lia.
      by apply Hk.
    - apply Hf; [|done]. rewrite <-(Nat.add_0_r i). by apply Hk. }
  apply Hgen. by intros j x.
Qed.

(** What the callback establishes at one element and every later call
    keeps holds at the end. *)
Lemma forEach_reach (I Q : S → Prop) (l : list A) (i : nat) (x : A) (s : S) :
  l !! i = Some x →
  (∀ s y j, I s → I (f s y j)) →
  (∀ s, I s → Q (f s x i)) →
  (∀ s y j, I s → Q s → Q (f s y j)) →
  I s → Q (Js.forEach f l s).
Proof.
  intros Hx HI Hhere Hkeep. unfold Js.forEach.
  assert (∀ k n s, I s → Q s → I (Js.forEachFrom f n k s) ∧ Q (Js.forEachFrom f n k s))
    as Hlater.
  { induction k as [|y k IH]; intros n s' Hs HQ; [done|].
    cbn [Js.forEachFrom]. apply IH; [by apply HI | by apply Hkeep]. }
  assert (∀ k n j s, k !! j = Some x → n + j = i → I s →
                     Q (Js.forEachFrom f n k s)) as Hgen.
  { induction k as [|y k IH]; intros n j s' Hk Hn Hs; [done|].
    cbn [Js.forEachFrom]. destruct j as [|j].
    - cbn in Hk. injection Hk as ->. replace n with i by lia.
      apply Hlater; [by apply HI | by apply Hhere].
    - cbn in Hk. apply (IH _ j); [done|lia|by apply HI]. }
  intros Hs. by apply (Hgen l 0 i).
Qed.

End IndexedLoops.

(** ** The overlay's analysis of a champion *)

Section OverlayAnalysis.

Import Props ThreatAnalyzer.

(** [analyzeAbility] keeps the tags of the table, in the order of the
    ability's own list. *)
Lemma analyzeAbility_omap (ability : option AbilitySummary.t) (index : nat) :
  analyzeAbility ability index
  = (λ entry, spread entry index)
      <$> omap (λ tag, CC_CLASSIFICATIONS !! tag)
            (default [] (ability ≫= AbilitySummary.threat)).
Proof.
  unfold analyzeAbility. destruct (ability ≫= AbilitySummary.threat) as [tags|]; [|done].
  cbn [default]. case_bool_decide as Hlen.
  { by apply nil_length_inv in Hlen as ->. }
  clear Hlen.
  assert (∀ acc,
    foldl (λ threats tag,
             match CC_CLASSIFICATIONS !! tag with
             | Some classification => threats ++ [spread classification index]
             | None => threats
             end) acc tags
    = acc ++ ((λ entry, spread entry index)
                <$> omap (λ tag, CC_CLASSIFICATIONS !! tag) tags)) as Hfold.
  { induction tags as [|tag tags IH]; intros acc; cbn [foldl omap list_omap].
    - by rewrite app_nil_r.
    - rewrite IH. destruct (CC_CLASSIFICATIONS !! tag); [|done].
      by rewrite fmap_cons, <-app_assoc. }
  apply (Hfold []).
Qed.

Lemma analyzeAbility_elem_of (ability : option AbilitySummary.t) (index : nat)
    (t : Threat.t) :
  t ∈ analyzeAbility ability index ↔
  ∃ tags tag entry,
    ability ≫= AbilitySummary.threat = Some tags ∧ tag ∈ tags
    ∧ CC_CLASSIFICATIONS !! tag = Some entry ∧ t = spread entry index.
Proof.
  rewrite analyzeAbility_omap, list_elem_of_fmap. split.
  - intros (entry & -> & Hentry). apply list_elem_of_omap in Hentry as (tag & Htag & Hlook).
    destruct (ability ≫= AbilitySummary.threat) as [tags|]; [|by apply elem_of_nil in Htag].
    by exists tags, tag, entry.
  - intros (tags & tag & entry & -> & Htag & Hlook & ->).
    exists entry. split; [done|]. apply list_elem_of_omap. by exists tag.
Qed.

Lemma foldl_addUnseen_elem_of (threats : list Threat.t)
    (st : list Threat.t * gset string) (t : Threat.t) :
  t ∈ (foldl addUnseen st threats).1 → t ∈ st.1 ∨ t ∈ threats.
Proof.
  revert st. induction threats as [|t' threats IH]; intros st; cbn [foldl]; [by left|].
  intros [Ht|Ht]%IH; [|right; by right].
  unfold addUnseen in Ht. case_bool_decide; [by left|].
  cbn [fst] in Ht. apply elem_of_app in Ht as [Ht|Ht]; [by left|].
  apply list_elem_of_singleton in Ht as ->. right. by left.
Qed.



(** Every threat the loop over the summary collects is the table entry of
    a tag of the ability it names. *)
Lemma summaryThreats_sound (champion : Champion.t)
    (championsSummary : option ChampionsSummary) (t : Threat.t) :
  t ∈ (summaryThreats champion championsSummary).1 →
  ∃ abilities index ability tags tag entry,
    findChampionSummary champion championsSummary ≫= ChampionSummary.abilities
    = Some abilities
    ∧ abilities !! index = Some ability
    ∧ ability ≫= AbilitySummary.threat = Some tags
    ∧ tag ∈ tags
    ∧ CC_CLASSIFICATIONS !! tag = Some entry
    ∧ t = spread entry index.
Proof.
  unfold summaryThreats.
  destruct (_ ≫= ChampionSummary.abilities) as [abilities|]; [|by intros ?%elem_of_nil].
  revert t.
  apply (forEach_inv_lookup _
           (λ st, ∀ t, t ∈ st.1 →
              ∃ abilities0 index ability tags tag entry,
                Some abilities = Some abilities0
                ∧ abilities0 !! index = Some ability
                ∧ ability ≫= AbilitySummary.threat = Some tags
                ∧ tag ∈ tags
                ∧ CC_CLASSIFICATIONS !! tag = Some entry
                ∧ t = spread entry index)).
  - intros st ability j Hj Hst t [Ht|Ht]%foldl_addUnseen_elem_of; [by apply Hst|].
    apply analyzeAbility_elem_of in Ht as (tags & tag & entry & ? & ? & ? & ?).
    by exists abilities, j, ability, tags, tag, entry.
  - by intros t ?%elem_of_nil.
Qed.


Lemma analyzeChampion_elem_of (localeCompare : string → string → Z)
    (champion : Champion.t) (championsSummary : option ChampionsSummary)
    (t : Threat.t) :
  t ∈ analyzeChampion localeCompare (Some champion) championsSummary ↔
  if bool_decide ((summaryThreats champion championsSummary).1 = [])
  then t ∈ analyzeFromTags (default [] (Champion.tags champion))
  else t ∈ (summaryThreats champion championsSummary).1.
Proof.
  case_bool_decide as Hnil.
  - rewrite analyzeChampion_fallback by done.
    unfold sortByPriority. by rewrite sort_Permutation.
  - rewrite analyzeChampion_curated by done.
    unfold sortByPriority. by rewrite sort_Permutation.
Qed.

(** X8. Every threat [analyzeChampion] returns is justified: it is the
    table entry of a threat tag of the ability of the curated summary whose
    index and key it carries, or, when the summary yields no threat at all,
    one of the role threats of [analyzeFromTags]. *)
Theorem analyzeChampion_sound (localeCompare : string → string → Z)
    (champion : Champion.t) (championsSummary : option ChampionsSummary)
    (t : Threat.t) :
  t ∈ analyzeChampion localeCompare (Some champion) championsSummary →
  (∃ abilities index ability tags tag entry,
     findChampionSummary champion championsSummary ≫= ChampionSummary.abilities
     = Some abilities
     ∧ abilities !! index = Some ability
     ∧ ability ≫= AbilitySummary.threat = Some tags
     ∧ tag ∈ tags
     ∧ CC_CLASSIFICATIONS !! tag = Some entry
     ∧ t = spread entry index)
  ∨ ((summaryThreats champion championsSummary).1 = []
     ∧ t ∈ analyzeFromTags (default [] (Champion.tags champion))).
Proof.
  rewrite analyzeChampion_elem_of. case_bool_decide as Hnil.
  - intros Ht. by right.
  - intros Ht. left. by apply summaryThreats_sound.
Qed.

Lemma analyzeChampion_sound_witness :
  let summary :=
    Some (ChampionsArray [
      ChampionSummary.mk (Some "Ahri") (Some "ahri")
        (Some [Some (AbilitySummary.mk None); Some (AbilitySummary.mk None);
               Some (AbilitySummary.mk (Some ["CHARM"]))])]) in
  let ahri := Champion.mk "Ahri" "Ahri" (Some ["Mage"]) in
  let t := spread (entry "hard" "Charm" true "hard") 2 in
  t ∈ analyzeChampion Js.codeUnitCompare (Some ahri) summary
  ∧ Threat.abilityKey t = Some "E".
Proof.
  intros summary ahri t.
  assert (t ∈ analyzeChampion Js.codeUnitCompare (Some ahri) summary) as Ht.
  { vm_compute. constructor. }
  split; [exact Ht|].
  destruct (analyzeChampion_sound Js.codeUnitCompare ahri summary t Ht)
    as [_ | [Hnil _]]; [reflexivity|].
  by vm_compute in Hnil.
Defined.



(** X10. For any collation, the threats [analyzeChampion] returns are
    ordered by the rank of their type in [sortByPriority]: hard (0), then
    suppression (1), soft (2), high (3), medium (4), low (5); no threat
    comes before one of a smaller rank. *)
Theorem analyzeChampion_sorted_by_type (localeCompare : string → string → Z)
    (champion : option Champion.t) (championsSummary : option ChampionsSummary) :
  StronglySorted
    (λ a b, (default 99 (typeOrder !! Threat.type a)
             ≤ default 99 (typeOrder !! Threat.type b))%Z)
    (analyzeChampion localeCompare champion championsSummary).
Proof.
  unfold analyzeChampion. destruct champion as [champion|]; [|constructor].
  unfold sortByPriority. apply sort_sorted.
  - intros x y z Hxy Hyz. by etrans.
  - intros x y. unfold compareThreats. case_bool_decide as Hne; lia.
  - intros x y. unfold compareThreats. case_bool_decide as Hne; lia.
Qed.

Lemma role_threats (tags : list string) :
  Forall (λ t, Threat.abilityIndex t = None ∧ Threat.abilityKey t = None
               ∧ Threat.qssOnly t = None ∧ Threat.cleansable t = false
               ∧ Threat.label t ∈ ["Assassin"; "Fighter"; "Tank"; "Mage"]
               ∧ Threat.type t ∈ ["high"; "medium"])
    (analyzeFromTags tags).
Proof.
  unfold analyzeFromTags.
  repeat case_bool_decide; cbn [app];
    repeat (apply Forall_cons_2; [repeat split; cbn; set_solver|]);
    constructor.
Qed.

(** X11. [analyzeChampion] never mixes its two sources: either every
    threat returned comes from the curated summary and carries the index of
    its ability with the matching key of Q, W, E, R, or every threat
    returned is a role threat (Assassin, Fighter, Tank, Mage) without
    ability. *)
Theorem analyzeChampion_one_source (localeCompare : string → string → Z)
    (champion : option Champion.t) (championsSummary : option ChampionsSummary) :
  let threats := analyzeChampion localeCompare champion championsSummary in
  Forall (λ t, ∃ index, Threat.abilityIndex t = Some index
                        ∧ Threat.abilityKey t = ["Q"; "W"; "E"; "R"] !! index)
    threats
  ∨ Forall (λ t, Threat.abilityIndex t = None ∧ Threat.abilityKey t = None
                 ∧ Threat.label t ∈ ["Assassin"; "Fighter"; "Tank"; "Mage"])
      threats.
Proof.
  intros threats. subst threats.
  destruct champion as [champion|]; [|left; constructor].
  destruct (decide ((summaryThreats champion championsSummary).1 = [])) as [Hnil|Hne].
  - right. apply Forall_forall. intros t Ht.
    apply analyzeChampion_elem_of in Ht. rewrite bool_decide_eq_true_2 in Ht by done.
    pose proof (role_threats (default [] (Champion.tags champion))) as Hall.
    rewrite Forall_forall in Hall. destruct (Hall t Ht) as (? & ? & _ & _ & ? & _).
    done.
  - left. apply Forall_forall. intros t Ht.
    apply analyzeChampion_elem_of in Ht. rewrite bool_decide_eq_false_2 in Ht by done.
    apply summaryThreats_sound in Ht as (? & index & ? & ? & ? & entry & _ & _ & _ & _ & _ & ->).
    by exists index.
Qed.

Lemma table_entries :
  Forall (λ kv : string * Entry.t,
            default false (Entry.qssOnly kv.2) = String.eqb (Entry.type kv.2) "suppression"
            ∧ forallb (λ c, negb (SecurityUtils.isHtmlSpecial c))
                (list_ascii_of_string (Entry.label kv.2)) = true)
    (map_to_list CC_CLASSIFICATIONS).
Proof.
  apply Forall_forall. intros [tag entry] Hin.
  apply elem_of_map_to_list in Hin.
  unfold CC_CLASSIFICATIONS in Hin. apply elem_of_list_to_map_2 in Hin.
  revert Hin. generalize (tag, entry). apply Forall_forall.
  repeat (apply Forall_cons_2; [by vm_compute|]). constructor.
Qed.

Lemma table_entry (tag : string) (entry : Entry.t) :
  CC_CLASSIFICATIONS !! tag = Some entry →
  default false (Entry.qssOnly entry) = String.eqb (Entry.type entry) "suppression"
  ∧ forallb (λ c, negb (SecurityUtils.isHtmlSpecial c))
      (list_ascii_of_string (Entry.label entry)) = true.
Proof.
  intros Hentry. pose proof table_entries as Hall. rewrite Forall_forall in Hall.
  apply (Hall (tag, entry)). by apply elem_of_map_to_list.
Qed.



(** X13. The labels of the threats [analyzeChampion] returns hold no
    character [escapeHtml] rewrites: the overlay displays them as they
    are. *)
Theorem threat_labels_escape_unchanged (localeCompare : string → string → Z)
    (champion : Champion.t) (championsSummary : option ChampionsSummary)
    (t : Threat.t) :
  t ∈ analyzeChampion localeCompare (Some champion) championsSummary →
  SecurityUtils.escapeHtml (Some (Threat.label t)) = Threat.label t.
Proof.
  intros Ht. cbn [SecurityUtils.escapeHtml]. apply replaceEach_id.
  apply analyzeChampion_sound in Ht as [Hcur | [_ Hrole]].
  - destruct Hcur as (? & index & ? & ? & tag & entry & _ & _ & _ & _ & Hentry & ->).
    apply table_entry in Hentry as [_ Hsafe]. cbn [spread Threat.label].
    rewrite forallb_forall in Hsafe. apply Forall_forall. intros c Hc.
    apply negb_true_iff, Hsafe. by apply list_elem_of_In.
  - pose proof (role_threats (default [] (Champion.tags champion))) as Hall.
    rewrite Forall_forall in Hall.
    destruct (Hall t Hrole) as (_ & _ & _ & _ & Hlabel & _).
    repeat (apply elem_of_cons in Hlabel as [->|Hlabel];
            [repeat (apply Forall_cons_2; [reflexivity|]); constructor|]).
    by apply elem_of_nil in Hlabel.
Qed.

Lemma threat_labels_escape_unchanged_witness :
  let zed := Champion.mk "Zed" "Zed" (Some ["Assassin"]) in
  let t := roleThreat "high" "Assassin" "high" in
  t ∈ analyzeChampion Js.codeUnitCompare (Some zed) None
  ∧ SecurityUtils.escapeHtml (Some "Assassin") = "Assassin".
Proof.
  intros zed t.
  assert (t ∈ analyzeChampion Js.codeUnitCompare (Some zed) None) as Ht.
  { vm_compute. constructor. }
  split; [exact Ht|].
  exact (threat_labels_escape_unchanged Js.codeUnitCompare zed None t Ht).
Defined.

Lemma filter_none {A : Type} (f : A → bool) (l : list A) :
  Forall (λ x, f x = false) l → List.filter f l = [].
Proof.
  induction 1 as [|x l Hx _ IH]; [done|]. cbn [List.filter]. by rewrite Hx.
Qed.

Lemma find_none_Forall {A : Type} (f : A → bool) (l : list A) :
  Forall (λ x, f x = false) l → List.find f l = None.
Proof.
  induction 1 as [|x l Hx _ IH]; [done|]. cbn [List.find]. by rewrite Hx.
Qed.

(** X14. For a champion whose curated summary yields no threat,
    [generateMatchupSummary] gives no warning about CC, mobility or
    stealth: its only possible tip is the one of the ADC templates. *)
Theorem generateMatchupSummary_uncurated (localeCompare : string → string → Z)
    (adcName : string) (enemyChampion : Champion.t)
    (championsSummary : option ChampionsSummary)
    (adcTemplates : option (gmap string AdcTemplate.t)) :
  (summaryThreats enemyChampion championsSummary).1 = [] →
  generateMatchupSummary localeCompare adcName enemyChampion championsSummary adcTemplates
  = match templateTip adcTemplates adcName (Champion.name enemyChampion) with
    | Some text => [Tip.mk "matchup" text]
    | None => []
    end.
Proof.
  intros Hnil. unfold generateMatchupSummary.
  assert (Forall (λ t, Threat.label t ∈ ["Assassin"; "Fighter"; "Tank"; "Mage"]
                       ∧ Threat.type t ∈ ["high"; "medium"])
            (analyzeChampion localeCompare (Some enemyChampion) championsSummary))
    as Hrole.
  { apply Forall_forall. intros t Ht. apply analyzeChampion_elem_of in Ht.
    rewrite bool_decide_eq_true_2 in Ht by done.
    pose proof (role_threats (default [] (Champion.tags enemyChampion))) as Hall.
    rewrite Forall_forall in Hall. by destruct (Hall t Ht) as (_ & _ & _ & _ & ? & ?). }
  rewrite filter_none, !find_none_Forall; cycle 1.
  - eapply Forall_impl; [exact Hrole|]. intros t [Hl _]. cbn.
    repeat (apply elem_of_cons in Hl as [->|Hl]; [done|]). by apply elem_of_nil in Hl.
  - eapply Forall_impl; [exact Hrole|]. intros t [Hl _]. cbn.
    repeat (apply elem_of_cons in Hl as [->|Hl]; [done|]). by apply elem_of_nil in Hl.
  - eapply Forall_impl; [exact Hrole|]. intros t [_ Hty]. cbn.
    repeat (apply elem_of_cons in Hty as [->|Hty]; [done|]). by apply elem_of_nil in Hty.
  - cbn [length]. rewrite bool_decide_eq_false_2 by lia.
    by destruct (templateTip _ _ _).
Qed.

Lemma generateMatchupSummary_uncurated_witness :
  let zed := Champion.mk "Zed" "Zed" (Some ["Assassin"]) in
  (summaryThreats zed None).1 = []
  ∧ generateMatchupSummary Js.codeUnitCompare "Jinx" zed None None = [].
Proof.
  intros zed.
  assert ((summaryThreats zed None).1 = []) as Hnil by reflexivity.
  split; [exact Hnil|].
  by rewrite (generateMatchupSummary_uncurated Js.codeUnitCompare "Jinx" zed None None Hnil).
Defined.

(** X15. The generic tip of the overlay and the role-tag fallback of the
    analyzer go together: [getChampionTip] has a tip for every champion for
    which [analyzeFromTags] finds a threat, and without ADC templates it has
    none for the others. *)
Theorem getChampionTip_matches_fallback
    (ADC_TEMPLATES : option (gmap string AdcTemplate.t))
    (selectedADC : option Champion.t) (champion : Champion.t) :
  (analyzeFromTags (default [] (Champion.tags champion)) ≠ [] →
   is_Some (OverlayController.getChampionTip ADC_TEMPLATES selectedADC champion))
  ∧ (OverlayController.getChampionTip None selectedADC champion = None ↔
     analyzeFromTags (default [] (Champion.tags champion)) = []).
Proof.
  unfold OverlayController.getChampionTip, analyzeFromTags.
  generalize (default [] (Champion.tags champion)). intros tags. split.
  - destruct (_ ≫= _); [by eexists|].
    repeat case_bool_decide;
      first [by intros Hne; destruct Hne | by intros _; eexists].
  - cbn [mbind option_bind]. repeat case_bool_decide; by split.
Qed.

Lemma getChampionTip_matches_fallback_witness :
  let garen := Champion.mk "Garen" "Garen" (Some ["Fighter"; "Tank"]) in
  analyzeFromTags (default [] (Champion.tags garen)) ≠ []
  ∧ OverlayController.getChampionTip None None garen
    = Some "Can dive and sustain. Avoid extended trades.".
Proof.
  intros garen.
  assert (analyzeFromTags (default [] (Champion.tags garen)) ≠ []) as Hne
    by (by vm_compute).
  split; [exact Hne|].
  destruct (proj1 (getChampionTip_matches_fallback None None garen) Hne) as [tip Htip].
  rewrite Htip. by vm_compute in Htip.
Defined.

End OverlayAnalysis.

(** ** The web page's analysis of a champion *)

Section WebAnalysis.

Import Classification App Props.

(** X16. With [allowFallbackCC] false, the call [populateAbilities] makes,
    and for every ability with a curated entry whatever the flag, the array
    [classifyAbility] returns holds classifications only, never [null]:
    reading the colour of its first element is safe. *)
Theorem classifyAbility_no_null (spell : Spell.t)
    (summaryData : option ChampionSummary.t) (abilityIndex : nat)
    (allowFallbackCC : bool) (c : option Classification.t) :
  allowFallbackCC = false ∨ is_Some (abilityEntry summaryData abilityIndex) →
  c ∈ classifyAbility spell summaryData abilityIndex allowFallbackCC →
  is_Some c.
Proof.
  intros Hcase Hc.
  assert (∀ entry, c ∈ classifyThreatTags (curatedTags entry) → is_Some c) as Htags.
  { intros entry (k & d & _ & _ & ->)%classifyThreatTags_defined. by eexists. }
  assert (c ∈ (if isNonCCThreat (classifyCC spell) then [classifyCC spell] else [])
          → is_Some c) as Htext.
  { destruct (classifyCC spell) as [d|]; cbn [isNonCCThreat].
    - case_bool_decide; [|by intros ?%elem_of_nil].
      intros ->%list_elem_of_singleton. by eexists.
    - by intros ?%elem_of_nil. }
  destruct (abilityEntry summaryData abilityIndex) as [entry|] eqn:Hentry.
  - destruct (classifyThreatTags (curatedTags entry)) as [|t ts] eqn:Ht.
    + rewrite (classifyAbility_untagged _ _ _ _ entry) in Hc by done. by apply Htext.
    + rewrite (classifyAbility_tagged _ _ _ _ entry) in Hc by (by rewrite ?Ht).
      by apply (Htags entry).
  - destruct Hcase as [->|[? [=]]].
    rewrite classifyAbility_uncurated in Hc by done.
    rewrite orb_false_r in Hc. by apply Htext.
Qed.

Lemma classifyAbility_no_null_witness :
  let spell := Spell.mk (Some "Strike") (Some "Hits the target.") in
  let shield := Spell.mk (Some "Barrier") (Some "Grants a shield.") in
  classifyAbility spell None 0 false = []
  ∧ Some (cc "medium" "Shield" false "medium") ∈ classifyAbility shield None 0 false
  ∧ is_Some (Some (cc "medium" "Shield" false "medium")).
Proof.
  intros spell shield. split; [by vm_compute|].
  assert (Some (cc "medium" "Shield" false "medium")
          ∈ classifyAbility shield None 0 false) as Hin.
  { vm_compute. constructor. }
  split; [exact Hin|].
  exact (classifyAbility_no_null shield None 0 false _ (or_introl eq_refl) Hin).
Defined.

(** X17. [classifyAbility] returns the empty array exactly when the
    curated tags (if any) give no classification, the text classifier finds
    no threat of the kind that is always accepted (Shield, Sustain, Burst,
    Poke, Stealth, Mobility), and the CC fallback does not apply: the flag
    is false or the ability has a curated entry. *)
Theorem classifyAbility_empty_iff (spell : Spell.t)
    (summaryData : option ChampionSummary.t) (abilityIndex : nat)
    (allowFallbackCC : bool) :
  classifyAbility spell summaryData abilityIndex allowFallbackCC = [] ↔
  from_option (λ entry, classifyThreatTags (curatedTags entry) = []) True
    (abilityEntry summaryData abilityIndex)
  ∧ isNonCCThreat (classifyCC spell) = false
  ∧ (allowFallbackCC = false ∨ is_Some (abilityEntry summaryData abilityIndex)).
Proof.
  destruct (abilityEntry summaryData abilityIndex) as [entry|] eqn:Hentry;
    cbn [from_option].
  - destruct (classifyThreatTags (curatedTags entry)) as [|t ts] eqn:Ht.
    + rewrite (classifyAbility_untagged _ _ _ _ entry) by done.
      destruct (isNonCCThreat _); split; try done.
      * by intros (_ & [=] & _).
      * intros _. repeat split; try done. right. by eexists.
    + rewrite (classifyAbility_tagged _ _ _ _ entry) by (by rewrite ?Ht).
      rewrite Ht. split; [done|]. by intros [[=] _].
  - rewrite classifyAbility_uncurated by done.
    destruct (isNonCCThreat _), allowFallbackCC; cbn [orb]; split; try done.
    + by intros (_ & [=] & _).
    + by intros (_ & [=] & _).
    + intros (_ & _ & [[=]|[? [=]]]).
    + intros _. repeat split; try done. by left.
Qed.

Lemma classifyAbility_empty_iff_witness :
  let spell := Spell.mk (Some "Strike") (Some "Hits the target.") in
  isNonCCThreat (classifyCC spell) = false
  ∧ classifyAbility spell None 0 false = [].
Proof.
  intros spell.
  assert (isNonCCThreat (classifyCC spell) = false) as Htext by (by vm_compute).
  split; [exact Htext|].
  apply (proj2 (classifyAbility_empty_iff spell None 0 false)).
  split; [exact I|]. split; [exact Htext|]. by left.
Defined.

(** X18. [classifyThreatTags] answers with table entries of the tags it
    is given and of nothing else, and misses no tag of the priority list:
    an element of the result is the entry of a tag of the input, and every
    tag of the input that the priority list names has its entry in the
    result.  Tags the list does not name are dropped. *)
Theorem classifyThreatTags_sound_complete (threatTags : list string) :
  (∀ c, c ∈ classifyThreatTags (Some threatTags) →
        ∃ tag d, tag ∈ threatTags ∧ tag ∈ priorityOrder
                 ∧ ccClassifications !! tag = Some d ∧ c = Some d)
  ∧ (∀ tag, tag ∈ threatTags → tag ∈ priorityOrder →
            ccClassifications !! tag ∈ classifyThreatTags (Some threatTags))
  ∧ ((∀ tag, tag ∈ threatTags → tag ∉ priorityOrder) →
     classifyThreatTags (Some threatTags) = []).
Proof.
  rewrite classifyThreatTags_filter. split; [|split].
  - intros c (tag & -> & Htag)%list_elem_of_fmap.
    apply list_elem_of_filter in Htag as [Hin Hprio].
    pose proof priorityOrder_in_table as Hall. rewrite Forall_forall in Hall.
    destruct (Hall tag Hprio) as [d Hd]. by exists tag, d.
  - intros tag Hin Hprio. apply list_elem_of_fmap. exists tag. split; [done|].
    by apply list_elem_of_filter.
  - intros Hnone.
    destruct (filter (.∈ threatTags) priorityOrder) as [|tag l] eqn:Hf; [done|].
    assert (tag ∈ filter (.∈ threatTags) priorityOrder) as Htag
      by (rewrite Hf; by left).
    apply list_elem_of_filter in Htag as [Hin Hprio]. by destruct (Hnone tag Hin).
Qed.

Lemma classifyThreatTags_sound_complete_witness :
  "STUN" ∈ ["NEW_TAG"; "STUN"]
  ∧ "STUN" ∈ priorityOrder
  ∧ Some (cc "hard" "Stun" true "hard") ∈ classifyThreatTags (Some ["NEW_TAG"; "STUN"]).
Proof.
  assert ("STUN" ∈ ["NEW_TAG"; "STUN"]) as Hin by (right; left).
  assert ("STUN" ∈ priorityOrder) as Hprio.
  { apply (bool_decide_unpack _). by vm_compute. }
  split; [exact Hin|]. split; [exact Hprio|].
  pose proof (proj1 (proj2 (classifyThreatTags_sound_complete ["NEW_TAG"; "STUN"]))
                "STUN" Hin Hprio) as H.
  replace (ccClassifications !! "STUN") with (Some (cc "hard" "Stun" true "hard")) in H
    by (by vm_compute).
  exact H.
Defined.

(** X19. In the array [classifyThreatTags] returns, no classification
    comes after one of a less threatening class: suppression and hard CC
    that Cleanse does not remove first, then the hard CC it removes, then
    soft CC, then what is not CC. *)
Theorem classifyThreatTags_class_order (threatTags : list string) (i j : nat)
    (a b : Classification.t) :
  (i < j)%nat →
  classifyThreatTags (Some threatTags) !! i = Some (Some a) →
  classifyThreatTags (Some threatTags) !! j = Some (Some b) →
  (classOf a ≤ classOf b)%nat.
Proof.
  intros Hij Ha Hb.
  destruct (classifyThreatTags_most_threatening_first threatTags) as (cs & Hcs & Hsorted).
  rewrite Hcs, list_lookup_fmap in Ha, Hb.
  destruct (cs !! i) as [a'|] eqn:Hi; [|done].
  destruct (cs !! j) as [b'|] eqn:Hj; [|done].
  cbn in Ha, Hb. injection Ha as ->. injection Hb as ->.
  apply (StronglySorted_lookup_lt le (classOf <$> cs) i j); [done..| |];
    by rewrite list_lookup_fmap, ?Hi, ?Hj.
Qed.

Lemma classifyThreatTags_class_order_witness :
  let tags := ["SHIELD"; "SLOW"; "STUN"; "KNOCKUP"] in
  classifyThreatTags (Some tags) !! 0 = Some (Some (ccQ "hard" "Knockup" false false "hard"))
  ∧ classifyThreatTags (Some tags) !! 3 = Some (Some (cc "medium" "Shield" false "medium"))
  ∧ (classOf (ccQ "hard" "Knockup" false false "hard")
     ≤ classOf (cc "medium" "Shield" false "medium"))%nat.
Proof.
  intros tags.
  assert (classifyThreatTags (Some tags) !! 0
          = Some (Some (ccQ "hard" "Knockup" false false "hard"))) as H0
    by (by vm_compute).
  assert (classifyThreatTags (Some tags) !! 3
          = Some (Some (cc "medium" "Shield" false "medium"))) as H3
    by (by vm_compute).
  split; [exact H0|]. split; [exact H3|].
  apply (classifyThreatTags_class_order tags 0 3 _ _); [lia|exact H0|exact H3].
Defined.

Lemma foldl_addThreat_elem_of (l : list (option Classification.t))
    (st : list Threat.t * gset string) (t : Threat.t) :
  t ∈ (foldl addThreat st l).1 → t ∈ st.1 ∨ ∃ c, Some c ∈ l ∧ t = toThreat c.
Proof.
  revert st. induction l as [|c l IH]; intros st; cbn [foldl]; [by left|].
  intros [Ht|(d & Hd & ->)]%IH; [|right; exists d; split; [by right|done]].
  unfold addThreat in Ht. destruct c as [c|]; [|by left].
  case_bool_decide; [by left|].
  cbn [fst] in Ht. apply elem_of_app in Ht as [Ht|Ht]; [by left|].
  apply list_elem_of_singleton in Ht as ->. right. exists c. split; [by left|done].
Qed.

Lemma foldl_addThreat_mono (l : list (option Classification.t))
    (st : list Threat.t * gset string) (t : Threat.t) :
  t ∈ st.1 → t ∈ (foldl addThreat st l).1.
Proof.
  revert st. induction l as [|c l IH]; intros st Ht; cbn [foldl]; [done|].
  apply IH. unfold addThreat. destruct c as [c|]; [|done].
  case_bool_decide; [done|]. cbn [fst]. apply elem_of_app. by left.
Qed.

Lemma foldl_addThreat_label (l : list (option Classification.t))
    (st : list Threat.t * gset string) (c : Classification.t) :
  dedupInv Threat.label st → Some c ∈ l →
  ccType c ∈ Threat.label <$> (foldl addThreat st l).1.
Proof.
  revert st. induction l as [|c' l IH]; intros st Hst Hc.
  { by apply elem_of_nil in Hc. }
  cbn [foldl]. apply elem_of_cons in Hc as [<-|Hc].
  - apply list_elem_of_fmap.
    unfold addThreat at 2. case_bool_decide as Hseen.
    + apply Hst in Hseen. apply list_elem_of_fmap in Hseen as (t0 & Hl & Ht0).
      exists t0. split; [done|]. by apply foldl_addThreat_mono.
    + exists (toThreat c). split; [done|]. apply foldl_addThreat_mono.
      cbn [fst]. apply elem_of_app. right. by left.
  - apply IH; [by apply addThreat_inv|done].
Qed.

(** X20. Every threat [analyzeThreats] returns comes from an ability of
    the champion: it is the summary line of a classification that
    [classifyAbility], called with the fallback allowed, gives for the spell
    at some index. *)
Theorem analyzeThreats_sound (championsSummary : gmap string ChampionSummary.t)
    (detail : Detail.t) (champion : Champion.t) (t : Threat.t) :
  t ∈ analyzeThreats championsSummary detail champion →
  ∃ spells index spell c,
    Detail.spells detail = Some spells
    ∧ spells !! index = Some spell
    ∧ Some c ∈ classifyAbility spell (summaryFor championsSummary champion) index true
    ∧ t = toThreat c.
Proof.
  unfold analyzeThreats. intros Ht%subseteq_take. revert t Ht.
  destruct (Detail.spells detail) as [spells|]; cbn [default].
  2:{ by intros t ?%elem_of_nil. }
  apply (forEach_inv_lookup _
           (λ st, ∀ t, t ∈ st.1 →
              ∃ spells0 index spell c,
                Some spells = Some spells0
                ∧ spells0 !! index = Some spell
                ∧ Some c ∈ classifyAbility spell
                             (summaryFor championsSummary champion) index true
                ∧ t = toThreat c)).
  - intros st spell j Hj Hst t [Ht|(c & Hc & ->)]%foldl_addThreat_elem_of;
      [by apply Hst|].
    by exists spells, j, spell, c.
  - by intros t ?%elem_of_nil.
Qed.

Lemma analyzeThreats_sound_witness :
  let spell := Spell.mk (Some "Dark Binding") (Some "Roots the first enemy hit.") in
  let detail := Detail.mk (Some [spell]) None in
  let champion := Champion.mk "Morgana" "Morgana" None in
  let t := toThreat (cc "soft" "Root" true "soft") in
  t ∈ analyzeThreats ∅ detail champion
  ∧ ∃ spells index spell c,
      Detail.spells detail = Some spells
      ∧ spells !! index = Some spell
      ∧ Some c ∈ classifyAbility spell (summaryFor ∅ champion) index true
      ∧ t = toThreat c.
Proof.
  intros spell detail champion t.
  assert (t ∈ analyzeThreats ∅ detail champion) as Ht.
  { vm_compute. constructor. }
  split; [exact Ht|]. exact (analyzeThreats_sound ∅ detail champion t Ht).
Defined.

Lemma classifyAbility_sources (spell : Spell.t)
    (summaryData : option ChampionSummary.t) (abilityIndex : nat)
    (allowFallbackCC : bool) (c : Classification.t) :
  Some c ∈ classifyAbility spell summaryData abilityIndex allowFallbackCC →
  (∃ k, k ∈ priorityOrder ∧ ccClassifications !! k = Some c)
  ∨ c ∈ ccCascade.*2.
Proof.
  assert (∀ tags, Some c ∈ classifyThreatTags tags →
                  ∃ k, k ∈ priorityOrder ∧ ccClassifications !! k = Some c) as Htags.
  { intros tags (k & d & Hk & Hd & [= ->])%classifyThreatTags_defined. by exists k. }
  assert (∀ b : bool, Some c ∈ (if b then [classifyCC spell] else [])
                      → c ∈ ccCascade.*2) as Htext.
  { intros [|]; [|by intros ?%elem_of_nil].
    intros Hc%list_elem_of_singleton. symmetry in Hc. by apply classifyCC_elem_of in Hc. }
  destruct (abilityEntry summaryData abilityIndex) as [entry|] eqn:Hentry.
  - destruct (classifyThreatTags (curatedTags entry)) as [|t ts] eqn:Ht.
    + rewrite (classifyAbility_untagged _ _ _ _ entry) by done.
      intros Hc. right. by apply (Htext _ Hc).
    + rewrite (classifyAbility_tagged _ _ _ _ entry) by (by rewrite ?Ht).
      intros Hc. left. by apply (Htags (curatedTags entry)).
  - rewrite classifyAbility_uncurated by done. intros Hc. right. by apply (Htext _ Hc).
Qed.

Lemma display_table :
  Forall (λ k, from_option
                 (λ c, bool_decide (severityOf (type c) ∈ ["high"; "medium"; "low"])
                       && bool_decide (icons !! ccType c = Some (getThreatIcon (ccType c)))
                       = true) True (ccClassifications !! k)) priorityOrder.
Proof. repeat (apply Forall_cons_2; [by vm_compute|]). constructor. Qed.

Lemma display_cascade :
  Forall (λ c, bool_decide (severityOf (type c) ∈ ["high"; "medium"; "low"])
               && bool_decide (icons !! ccType c = Some (getThreatIcon (ccType c)))
               = true) ccCascade.*2.
Proof. repeat (apply Forall_cons_2; [by vm_compute|]). constructor. Qed.

(** X21. Every threat [analyzeThreats] returns can be displayed as
    designed: its severity is high, medium or low (hard and suppression
    count as high, soft as medium), and its icon is the one the icon table
    lists for its label, never the fallback sign. *)
Theorem analyzeThreats_display (championsSummary : gmap string ChampionSummary.t)
    (detail : Detail.t) (champion : Champion.t) (t : Threat.t) :
  t ∈ analyzeThreats championsSummary detail champion →
  Threat.severity t ∈ ["high"; "medium"; "low"]
  ∧ icons !! Threat.label t = Some (Threat.icon t).
Proof.
  intros (spells & index & spell & c & _ & _ & Hc & ->)%analyzeThreats_sound.
  cbn [toThreat Threat.severity Threat.label Threat.icon].
  assert (bool_decide (severityOf (type c) ∈ ["high"; "medium"; "low"])
          && bool_decide (icons !! ccType c = Some (getThreatIcon (ccType c)))
          = true) as Hok.
  { apply classifyAbility_sources in Hc as [(k & Hk & Hentry) | Hc].
    - pose proof display_table as Hall. rewrite Forall_forall in Hall.
      specialize (Hall k Hk). by rewrite Hentry in Hall.
    - pose proof display_cascade as Hall. rewrite Forall_forall in Hall.
      by apply Hall. }
  apply andb_true_iff in Hok as [H1 H2].
  split; by eapply bool_decide_eq_true_1.
Qed.

Lemma analyzeThreats_display_witness :
  let spell := Spell.mk (Some "Dark Binding") (Some "Roots the first enemy hit.") in
  let detail := Detail.mk (Some [spell]) None in
  let champion := Champion.mk "Morgana" "Morgana" None in
  let t := toThreat (cc "soft" "Root" true "soft") in
  t ∈ analyzeThreats ∅ detail champion
  ∧ Threat.severity t ∈ ["high"; "medium"; "low"]
  ∧ icons !! Threat.label t = Some (Threat.icon t).
Proof.
  intros spell detail champion t.
  assert (t ∈ analyzeThreats ∅ detail champion) as Ht.
  { vm_compute. constructor. }
  split; [exact Ht|]. exact (analyzeThreats_display ∅ detail champion t Ht).
Defined.

(** X22. The cap is the only way [analyzeThreats] loses a label: the
    label of every classification of every spell is among the labels
    returned, unless the result has reached its 10 entries. *)
Theorem analyzeThreats_complete (championsSummary : gmap string ChampionSummary.t)
    (detail : Detail.t) (champion : Champion.t) (spells : list Spell.t)
    (index : nat) (spell : Spell.t) (c : Classification.t) :
  Detail.spells detail = Some spells →
  spells !! index = Some spell →
  Some c ∈ classifyAbility spell (summaryFor championsSummary champion) index true →
  ccType c ∈ Threat.label <$> analyzeThreats championsSummary detail champion
  ∨ length (analyzeThreats championsSummary detail champion) = 10.
Proof.
  intros Hspells Hidx Hc. unfold analyzeThreats. cbv zeta. rewrite Hspells.
  cbn [default]. change (id spells) with spells.
  match goal with
  | |- context [Js.forEach ?f spells ?s] => set (st := Js.forEach f spells s)
  end.
  assert (ccType c ∈ Threat.label <$> st.1) as Hfull.
  { subst st.
    apply (forEach_reach _ (dedupInv Threat.label)
             (λ st, ccType c ∈ Threat.label <$> st.1)
             spells index spell); [done| | | |apply dedupInv_empty].
    - intros st y j Hst. apply foldl_inv; [|done]. intros st' t. apply addThreat_inv.
    - intros st Hst. by apply foldl_addThreat_label.
    - intros st y j _ (t & Hl & Ht)%list_elem_of_fmap.
      apply list_elem_of_fmap. exists t. split; [done|]. by apply foldl_addThreat_mono. }
  destruct (decide (length st.1 ≤ 10)%nat) as [Hle|Hgt].
  - left. by rewrite take_ge.
  - right. rewrite length_take. lia.
Qed.

Lemma analyzeThreats_complete_witness :
  let spell := Spell.mk (Some "Dark Binding") (Some "Roots the first enemy hit.") in
  let detail := Detail.mk (Some [spell]) None in
  let champion := Champion.mk "Morgana" "Morgana" None in
  Some (cc "soft" "Root" true "soft")
    ∈ classifyAbility spell (summaryFor ∅ champion) 0 true
  ∧ ("Root" ∈ Threat.label <$> analyzeThreats ∅ detail champion
     ∨ length (analyzeThreats ∅ detail champion) = 10).
Proof.
  intros spell detail champion.
  assert (Some (cc "soft" "Root" true "soft")
            ∈ classifyAbility spell (summaryFor ∅ champion) 0 true) as Hc.
  { vm_compute. constructor. }
  split; [exact Hc|].
  exact (analyzeThreats_complete ∅ detail champion [spell] 0 spell _
           eq_refl eq_refl Hc).
Defined.

End WebAnalysis.

(** ** The summary map of the web page *)

Section SummaryMap.

Import App.




End SummaryMap.

(** ** The rate limiter *)

Section RateLimiterFacts.

Import SecurityUtils.

Variables maxRequests windowMs : Z.

Lemma filter_all {A : Type} (P : A → Prop) `{!∀ x, Decision (P x)} (l : list A) :
  Forall P l → filter P l = l.
Proof.
  induction 1 as [|x l Hx _ IH]; [done|].
  by rewrite filter_cons, decide_True, IH.
Qed.

Lemma removeOld_length (windowStart : Z) (requests : list Z) :
  (length (removeOld windowStart requests) ≤ length requests)%nat.
Proof.
  induction requests as [|r l IH]; cbn [removeOld]; [done|].
  destruct (r <? windowStart)%Z; cbn [length]; lia.
Qed.

(** On times in order the loop removes exactly the times before the
    window. *)
Lemma removeOld_sorted (windowStart : Z) (requests : list Z) :
  StronglySorted Z.le requests →
  removeOld windowStart requests = filter (λ t, (windowStart ≤ t)%Z) requests.
Proof.
  induction 1 as [|r l Hl IH Hr]; [done|]. cbn [removeOld].
  destruct (r <? windowStart)%Z eqn:Hlt.
  - apply Z.ltb_lt in Hlt. rewrite filter_cons, decide_False by lia. exact IH.
  - apply Z.ltb_ge in Hlt. rewrite filter_cons, decide_True by done. f_equal.
    symmetry. apply filter_all. eapply Forall_impl; [exact Hr|].
    intros t Ht. cbn in Ht. lia.
Qed.

(** X24. The limiter never remembers more calls than it allows: whatever
    the times of the calls, the state holds at most [maxRequests] times
    (none when [maxRequests] is not positive). *)
Theorem rateLimiter_state_bound (times requests : list Z) :
  (Z.of_nat (length requests) ≤ Z.max 0 maxRequests)%Z →
  (Z.of_nat (length (allowedCalls maxRequests windowMs times requests).2)
   ≤ Z.max 0 maxRequests)%Z.
Proof.
  revert requests. induction times as [|now later IH]; intros requests Hlen; [done|].
  cbn [allowedCalls]. unfold isAllowed.
  pose proof (removeOld_length (now - windowMs) requests) as Hold.
  destruct (maxRequests <=? _)%Z eqn:Hfull.
  - specialize (IH (removeOld (now - windowMs) requests)).
    destruct (allowedCalls _ _ later _) as [rest final]. cbn [snd] in *.
    apply IH. lia.
  - apply Z.leb_gt in Hfull.
    specialize (IH (removeOld (now - windowMs) requests ++ [now])).
    destruct (allowedCalls _ _ later _) as [rest final]. cbn [snd] in *.
    apply IH. rewrite length_app. cbn [length]. lia.
Qed.

Lemma StronglySorted_filter {A : Type} (R : relation A) (P : A → Prop)
    `{!∀ x, Decision (P x)} (l : list A) :
  StronglySorted R l → StronglySorted R (filter P l).
Proof.
  intros Hl. pose proof (StronglySorted_fmap_filter R id P l) as Hf.
  rewrite !list_fmap_id in Hf. by apply Hf.
Qed.

Lemma withinRate_snoc (history : list Z) (now : Z) :
  withinRate maxRequests windowMs history →
  (Z.of_nat (length (filter (λ t, (now - windowMs ≤ t)%Z) history)) < maxRequests)%Z →
  withinRate maxRequests windowMs (history ++ [now]).
Proof.
  intros Hhist Hnow before t after Heq.
  destruct after as [|a after _] using rev_ind.
  - apply (app_inj_tail history before now t) in Heq as [-> ->]. exact Hnow.
  - rewrite app_comm_cons, app_assoc in Heq.
    apply app_inj_tail in Heq as [-> _]. by apply (Hhist before t after).
Qed.

Lemma allowedCalls_withinRate (times history requests : list Z) (last : Z) :
  (0 ≤ windowMs)%Z →
  StronglySorted Z.le times →
  Forall (λ t, (last ≤ t)%Z) times →
  requests = filter (λ t, (last - windowMs ≤ t)%Z) history →
  StronglySorted Z.le history →
  Forall (λ t, (t ≤ last)%Z) history →
  withinRate maxRequests windowMs history →
  withinRate maxRequests windowMs (history ++ (allowedCalls maxRequests windowMs times requests).1).
Proof.
  intros Hw. revert history requests last.
  induction times as [|now later IH];
    intros history requests last Htimes Hlast Hreq Hsorted Hbefore Hgood.
  { cbn [allowedCalls fst]. by rewrite app_nil_r. }
  apply StronglySorted_inv in Htimes as [Hlater Hnow].
  apply Forall_cons in Hlast as [Hlast _].
  cbn [allowedCalls]. unfold isAllowed.
  assert (removeOld (now - windowMs) requests
          = filter (λ t, (now - windowMs ≤ t)%Z) history) as Hold.
  { rewrite removeOld_sorted.
    - rewrite Hreq. apply list_filter_filter_l. intros t Ht. lia.
    - rewrite Hreq. by apply StronglySorted_filter. }
  assert (Forall (λ t, (t ≤ now)%Z) history) as Hbefore'.
  { eapply Forall_impl; [exact Hbefore|]. intros t Ht. cbn in Ht. lia. }
  destruct (maxRequests <=? _)%Z eqn:Hfull.
  - specialize (IH history (removeOld (now - windowMs) requests) now
                  Hlater Hnow Hold Hsorted Hbefore' Hgood).
    by destruct (allowedCalls _ _ later _) as [rest final].
  - apply Z.leb_gt in Hfull. rewrite Hold in Hfull.
    specialize (IH (history ++ [now]) (removeOld (now - windowMs) requests ++ [now]) now
                  Hlater Hnow).
    destruct (allowedCalls _ _ later _) as [rest final]. cbn [fst] in *.
    replace (history ++ now :: rest) with ((history ++ [now]) ++ rest)
      by (by rewrite <-app_assoc).
    apply IH.
    + rewrite Hold, filter_app, filter_cons, decide_True by lia. done.
    + apply StronglySorted_app_2; [|done|repeat constructor].
      intros x y Hx ->%list_elem_of_singleton. rewrite Forall_forall in Hbefore'.
      by apply Hbefore'.
    + apply Forall_app. split; [done|]. repeat constructor. lia.
    + by apply withinRate_snoc.
Qed.

(** X25. The limiter limits: when the clock does not go back and the
    window is not negative, every call a fresh limiter allows has fewer
    than [maxRequests] allowed calls before it in the window that ends with
    it; a window never holds more than [maxRequests] allowed calls. *)
Theorem rateLimiter_window (times before after : list Z) (now : Z) :
  (0 ≤ windowMs)%Z →
  StronglySorted Z.le times →
  (allowedCalls maxRequests windowMs times []).1 = before ++ now :: after →
  (Z.of_nat (length (filter (λ t, (now - windowMs ≤ t)%Z) before)) < maxRequests)%Z.
Proof.
  intros Hw Htimes Heq.
  assert (withinRate maxRequests windowMs ([] ++ (allowedCalls maxRequests windowMs times []).1)) as Hgood.
  { destruct times as [|first later].
    - intros b t a Hbta. by destruct b.
    - apply (allowedCalls_withinRate _ [] [] first); try done.
      + apply StronglySorted_inv in Htimes as [_ Hfirst]. by constructor.
      + constructor.
      + intros b t a Hbta. by destruct b. }
  by apply (Hgood before now after).
Qed.

End RateLimiterFacts.

Lemma rateLimiter_state_bound_witness :
  (Z.of_nat (length (@nil Z)) ≤ Z.max 0 2)%Z
  ∧ (Z.of_nat (length (SecurityUtils.allowedCalls 2 1000 [0; 100; 200; 1100]%Z []).2)
     ≤ Z.max 0 2)%Z.
Proof.
  assert (Z.of_nat (length (@nil Z)) ≤ Z.max 0 2)%Z as H by (cbn; lia).
  split; [exact H|].
  exact (rateLimiter_state_bound 2 1000 [0; 100; 200; 1100]%Z [] H).
Defined.

Lemma rateLimiter_window_witness :
  (0 ≤ 1000)%Z
  ∧ StronglySorted Z.le [0; 100; 200; 1100]%Z
  ∧ (SecurityUtils.allowedCalls 2 1000 [0; 100; 200; 1100]%Z []).1
    = [0; 100]%Z ++ 1100%Z :: []
  ∧ (Z.of_nat (length (filter (λ t, (1100 - 1000 ≤ t)%Z) [0; 100]%Z)) < 2)%Z.
Proof.
  assert (0 ≤ 1000)%Z as Hw by lia.
  assert (StronglySorted Z.le [0; 100; 200; 1100]%Z) as Hs.
  { repeat (constructor; [|repeat (constructor; [lia|]); constructor]). constructor. }
  assert ((SecurityUtils.allowedCalls 2 1000 [0; 100; 200; 1100]%Z []).1
          = [0; 100]%Z ++ 1100%Z :: []) as Heq by reflexivity.
  split; [exact Hw|]. split; [exact Hs|]. split; [exact Heq|].
  exact (rateLimiter_window 2 1000 [0; 100; 200; 1100]%Z [0; 100]%Z [] 1100%Z Hw Hs Heq).
Defined.
